(** * Fault-tolerant command executor: the command store and its clients

    A shallow embedding of
      - server/src/db/database.ts   (class CommandDatabase),
      - server/src/routes/agent.ts  (POST /agent/result, /agent/heartbeat),
      - agent/src/executor/commands.ts (executeCommand, executeHttpGetJson),
      - agent/src/index.ts          (Agent.executeAndReport),
      - shared/src/index.ts         (types, type guards, MAX_BODY_SIZE),
    and the properties of the state machine they implement.

    Modelling conventions.
      - Timestamps are the strings of [Date.prototype.toISOString]; they have
        a fixed width for years 0000-9999, so SQLite's text comparison on them
        is the comparison of the instants.  They are modelled as [Z]
        (milliseconds since the epoch).  Every [new Date()] / [Date.now()] the
        code performs is an explicit argument of the embedded function.
      - The table [commands] is a list of rows in rowid (insertion) order, the
        order in which SQLite visits it; [agent_heartbeats] is a finite map
        keyed by its primary key [agent_id].
      - A nullable TEXT column is an [option]; [None] is SQL NULL.
      - [JSON.stringify] followed by [JSON.parse] is the identity on the
        values stored in the [payload] and [result] columns, so a column
        holds the value itself.
      - Arguments and request fields are taken at their TypeScript types:
        an id is a string, a result is null or an object, a number is an
        integer that JSON carries exactly.  Values outside these types (a
        missing result, a string or array as result, a number that JSON
        turns into null, an id that is no string) are outside the model,
        and a theorem whose content depends on them says so. *)

From stdpp Require Import gmap strings list fin_maps.
From Stdlib Require Import ZArith Lia.

Open Scope Z_scope.

(* ===================================================================== *)
(** ** shared/src/index.ts: types                                         *)
(* ===================================================================== *)

Inductive CommandType := DELAY | HTTP_GET_JSON.

Inductive CommandStatus := PENDING | RUNNING | COMPLETED | FAILED.

#[global] Instance CommandType_eq_dec : EqDecision CommandType.
Proof. solve_decision. Defined.

#[global] Instance CommandStatus_eq_dec : EqDecision CommandStatus.
Proof. solve_decision. Defined.

(** The parameter type ['COMPLETED' | 'FAILED'] of [completeCommand]. *)
Inductive TerminalStatus := T_COMPLETED | T_FAILED.

Definition statusOf (t : TerminalStatus) : CommandStatus :=
  match t with T_COMPLETED => COMPLETED | T_FAILED => FAILED end.

Definition isTerminal (s : CommandStatus) : bool :=
  match s with COMPLETED | FAILED => true | _ => false end.

(** JSON values as far as the store looks into them: an object is the
    sequence of its own properties, in property order. *)
Inductive Json :=
| JNull
| JBool (b : bool)
| JNum (n : Z)
| JStr (s : string)
| JObj (fields : JFields)
with JFields :=
| FNil
| FCons (key : string) (value : Json) (rest : JFields).

(** A payload object: [ms] is present when it holds a number, [url] when it
    holds a string (what the two type guards test). *)
Record CommandPayload := mkPayload {
  ms : option Z;
  url : option string
}.

Definition isDelayPayload (p : CommandPayload) : bool :=
  match ms p with Some _ => true | None => false end.

Definition isHttpGetJsonPayload (p : CommandPayload) : bool :=
  match url p with Some _ => true | None => false end.

Definition MAX_BODY_SIZE : Z := 10240.

(** [interface Command]. *)
Record Command := mkCommand {
  id : string;
  type : CommandType;
  payload : CommandPayload;
  status : CommandStatus;
  result : Json;
  agentId : option string;
  createdAt : Z;
  updatedAt : Z;
  startedAt : option Z;
  completedAt : option Z
}.

(* ===================================================================== *)
(** ** server/src/db/database.ts                                          *)
(* ===================================================================== *)

(** [interface CommandRow]: one row of the table [commands]. *)
Record CommandRow := mkRow {
  row_id : string;
  row_type : CommandType;
  row_payload : CommandPayload;
  row_status : CommandStatus;
  row_result : option Json;
  agent_id : option string;
  created_at : Z;
  updated_at : Z;
  started_at : option Z;
  completed_at : option Z
}.

(** One row of the table [agent_heartbeats], without its key. *)
Record HeartbeatRow := mkHeartbeat {
  last_heartbeat : Z;
  current_command_id : option string
}.

Record Db := mkDb {
  commands : list CommandRow;
  agent_heartbeats : gmap string HeartbeatRow
}.

(** JavaScript truthiness of an optional string: [undefined], [null] and the
    empty string are falsy. *)
Definition truthy (s : option string) : bool :=
  match s with
  | Some s' => negb (String.eqb s' "")
  | None => false
  end.

(** [x || null] on an optional string. *)
Definition orNull (s : option string) : option string :=
  if truthy s then s else None.

(** [rowToCommand]: [row.result ? JSON.parse(row.result) : null]. *)
Definition rowToCommand (row : CommandRow) : Command :=
  {| id := row_id row;
     type := row_type row;
     payload := row_payload row;
     status := row_status row;
     result := match row_result row with Some j => j | None => JNull end;
     agentId := agent_id row;
     createdAt := created_at row;
     updatedAt := updated_at row;
     startedAt := started_at row;
     completedAt := completed_at row |}.

(** [UPDATE commands SET status = 'PENDING', agent_id = NULL,
     started_at = NULL, updated_at = ?]: the new value of one row. *)
Definition resetRow (now : Z) (r : CommandRow) : CommandRow :=
  {| row_id := row_id r;
     row_type := row_type r;
     row_payload := row_payload r;
     row_status := PENDING;
     row_result := row_result r;
     agent_id := None;
     created_at := created_at r;
     updated_at := now;
     started_at := None;
     completed_at := completed_at r |}.

(** [UPDATE commands SET status = 'RUNNING', agent_id = ?, started_at = ?,
     updated_at = ?]. *)
Definition assignRow (agentId : string) (now : Z) (r : CommandRow) : CommandRow :=
  {| row_id := row_id r;
     row_type := row_type r;
     row_payload := row_payload r;
     row_status := RUNNING;
     row_result := row_result r;
     agent_id := Some agentId;
     created_at := created_at r;
     updated_at := now;
     started_at := Some now;
     completed_at := completed_at r |}.

(** [UPDATE commands SET status = ?, result = ?, completed_at = ?,
     updated_at = ?]. *)
Definition finishRow (st : CommandStatus) (res : Json) (now : Z)
    (r : CommandRow) : CommandRow :=
  {| row_id := row_id r;
     row_type := row_type r;
     row_payload := row_payload r;
     row_status := st;
     row_result := Some res;
     agent_id := agent_id r;
     created_at := created_at r;
     updated_at := now;
     started_at := started_at r;
     completed_at := Some now |}.

(** [UPDATE ... WHERE cond]: rewrite the rows that satisfy the condition, in
    place; [countWhere] is the statement's [changes]. *)
Definition updateWhere (cond : CommandRow -> bool) (f : CommandRow -> CommandRow)
    (rows : list CommandRow) : list CommandRow :=
  map (fun r => if cond r then f r else r) rows.

Definition countWhere (cond : CommandRow -> bool) (rows : list CommandRow) : nat :=
  length (filter (fun r => cond r = true) rows).

Definition isRunning (r : CommandRow) : bool :=
  bool_decide (row_status r = RUNNING).

Definition isPending (r : CommandRow) : bool :=
  bool_decide (row_status r = PENDING).

Definition hasId (cid : string) (r : CommandRow) : bool :=
  bool_decide (row_id r = cid).

Definition ownedBy (agentId : string) (r : CommandRow) : bool :=
  bool_decide (agent_id r = Some agentId).

(** [WHERE agent_id = ? AND status = 'RUNNING']. *)
Definition runningFor (agentId : string) (r : CommandRow) : bool :=
  ownedBy agentId r && isRunning r.

(** [recoverFromCrash]. *)
Definition recoverFromCrash (now : Z) (db : Db) : Db :=
  let runningCommands := filter (fun r => isRunning r = true) (commands db) in
  if (0 <? length runningCommands)%nat
  then {| commands := updateWhere isRunning (resetRow now) (commands db);
          agent_heartbeats := agent_heartbeats db |}
  else db.

(** [createCommand].  The INSERT violates the primary key, and the call
    throws, when the id is already in the table: [None]. *)
Definition createCommand (cid : string) (ty : CommandType) (p : CommandPayload)
    (now : Z) (db : Db) : option (Command * Db) :=
  if existsb (hasId cid) (commands db) then None
  else
    let row := {| row_id := cid; row_type := ty; row_payload := p;
                  row_status := PENDING; row_result := None; agent_id := None;
                  created_at := now; updated_at := now;
                  started_at := None; completed_at := None |} in
    Some ({| id := cid; type := ty; payload := p; status := PENDING;
             result := JNull; agentId := None; createdAt := now;
             updatedAt := now; startedAt := None; completedAt := None |},
          {| commands := commands db ++ [row];
             agent_heartbeats := agent_heartbeats db |}).

(** [getCommand]. *)
Definition getCommand (cid : string) (db : Db) : option Command :=
  rowToCommand <$> find (hasId cid) (commands db).

(** [updateHeartbeat]: INSERT OR REPLACE of the agent's row. *)
Definition updateHeartbeat (agentId : string) (commandId : option string)
    (now : Z) (db : Db) : Db :=
  {| commands := commands db;
     agent_heartbeats :=
       <[agentId := {| last_heartbeat := now;
                       current_command_id := orNull commandId |}]>
         (agent_heartbeats db) |}.

(** [SELECT ... ORDER BY created_at ASC LIMIT 1] over the rows given in
    scan order: a row with the least [created_at]; among several, the one
    met first. *)
Fixpoint orderByCreatedAtLimit1 (rows : list CommandRow) : option CommandRow :=
  match rows with
  | [] => None
  | r :: rest =>
      match orderByCreatedAtLimit1 rest with
      | Some b => if created_at b <? created_at r then Some b else Some r
      | None => Some r
      end
  end.

(** [fetchNextCommand].  [now] is the clock read of the function, [hbNow]
    the one of the nested [updateHeartbeat]. *)
Definition fetchNextCommand (agentId : string) (now hbNow : Z) (db : Db)
    : option Command * Db :=
  match find (runningFor agentId) (commands db) with
  | Some existingCommand => (Some (rowToCommand existingCommand), db)
  | None =>
      match orderByCreatedAtLimit1
              (filter (fun r => isPending r = true) (commands db)) with
      | None => (None, db)
      | Some pendingCommand =>
          let db1 :=
            {| commands := updateWhere (hasId (row_id pendingCommand))
                             (assignRow agentId now) (commands db);
               agent_heartbeats := agent_heartbeats db |} in
          let db2 := updateHeartbeat agentId (Some (row_id pendingCommand)) hbNow db1 in
          (Some {| id := row_id pendingCommand;
                   type := row_type pendingCommand;
                   payload := row_payload pendingCommand;
                   status := RUNNING;
                   result := match row_result pendingCommand with
                             | Some j => j | None => JNull end;
                   agentId := Some agentId;
                   createdAt := created_at pendingCommand;
                   updatedAt := now;
                   startedAt := Some now;
                   completedAt := completed_at pendingCommand |},
           db2)
      end
  end.

(** [getUnfinishedCommand]. *)
Definition getUnfinishedCommand (agentId : string) (db : Db) : option Command :=
  rowToCommand <$> find (runningFor agentId) (commands db).

(** The own properties of a result spread into an object literal. *)
Definition fieldsOf (j : Json) : JFields :=
  match j with JObj fs => fs | _ => FNil end.

Fixpoint setField (k : string) (v : Json) (fs : JFields) : JFields :=
  match fs with
  | FNil => FCons k v FNil
  | FCons k' v' rest =>
      if String.eqb k' k then FCons k' v rest else FCons k' v' (setField k v rest)
  end.

(** [error ? { ...result, error } : result]. *)
Definition finalResult (res : Json) (error : option string) : Json :=
  match error with
  | Some e => if truthy error then JObj (setField "error" (JStr e) (fieldsOf res)) else res
  | None => res
  end.

(** [completeCommand]. *)
Definition completeCommand (commandId agentId : string) (st : TerminalStatus)
    (res : Json) (error : option string) (now hbNow : Z) (db : Db) : bool * Db :=
  match find (fun r => hasId commandId r && runningFor agentId r) (commands db) with
  | None => (false, db)
  | Some _ =>
      let cond := fun r => hasId commandId r && ownedBy agentId r in
      let changes := countWhere cond (commands db) in
      let db1 :=
        {| commands := updateWhere cond
                         (finishRow (statusOf st) (finalResult res error) now)
                         (commands db);
           agent_heartbeats := agent_heartbeats db |} in
      ((0 <? changes)%nat, updateHeartbeat agentId None hbNow db1)
  end.

(** [WHERE last_heartbeat < ? AND current_command_id IS NOT NULL]. *)
Definition isStale (cutoff : Z) (hb : HeartbeatRow) : bool :=
  bool_decide (last_heartbeat hb < cutoff)
  && match current_command_id hb with Some _ => true | None => false end.

(** [staleAgents.map(a => a.agent_id)].  The order in which the rows come
    is the order of [map_to_list]; the loop below treats one agent at a
    time and its effect does not depend on that order. *)
Definition staleAgentIds (cutoff : Z) (hbs : gmap string HeartbeatRow)
    : list string :=
  (map_to_list (filter (fun kv => isStale cutoff kv.2 = true) hbs)).*1.

(** [UPDATE agent_heartbeats SET current_command_id = NULL]. *)
Definition clearCurrent (hb : HeartbeatRow) : HeartbeatRow :=
  {| last_heartbeat := last_heartbeat hb; current_command_id := None |}.

(** The body of the loop [for (const agentId of agentIds)]. *)
Definition reclaimAgent (now : Z) (acc : nat * Db) (agentId : string)
    : nat * Db :=
  let resetCount := acc.1 in
  let db := acc.2 in
  ((resetCount + countWhere (runningFor agentId) (commands db))%nat,
   {| commands := updateWhere (runningFor agentId) (resetRow now) (commands db);
      agent_heartbeats := alter clearCurrent agentId (agent_heartbeats db) |}).

(** [checkStaleCommands].  [dateNow] is the [Date.now()] of the cutoff,
    [now] the [new Date()] written to [updated_at]. *)
Definition checkStaleCommands (timeoutMs dateNow now : Z) (db : Db) : nat * Db :=
  let cutoff := dateNow - timeoutMs in
  let agentIds := staleAgentIds cutoff (agent_heartbeats db) in
  if (length agentIds =? 0)%nat then (0%nat, db)
  else foldl (reclaimAgent now) (0%nat, db) agentIds.

(** *** The operations of the store as a labelled transition system *)

Inductive DbOp :=
| OpCreateCommand (cid : string) (ty : CommandType) (p : CommandPayload) (now : Z)
| OpFetchNextCommand (agentId : string) (now hbNow : Z)
| OpCompleteCommand (commandId agentId : string) (st : TerminalStatus)
    (res : Json) (error : option string) (now hbNow : Z)
| OpUpdateHeartbeat (agentId : string) (commandId : option string) (now : Z)
| OpCheckStaleCommands (timeoutMs dateNow now : Z)
| OpRecoverFromCrash (now : Z).

(** The store after an operation; a [createCommand] that throws leaves it
    as it was. *)
Definition runOp (op : DbOp) (db : Db) : Db :=
  match op with
  | OpCreateCommand cid ty p now =>
      match createCommand cid ty p now db with
      | Some (_, db') => db'
      | None => db
      end
  | OpFetchNextCommand a now hbNow => (fetchNextCommand a now hbNow db).2
  | OpCompleteCommand c a st res e now hbNow =>
      (completeCommand c a st res e now hbNow db).2
  | OpUpdateHeartbeat a c now => updateHeartbeat a c now db
  | OpCheckStaleCommands t dateNow now => (checkStaleCommands t dateNow now db).2
  | OpRecoverFromCrash now => recoverFromCrash now db
  end.

Definition runOps (ops : list DbOp) (db : Db) : Db :=
  foldl (fun d op => runOp op d) db ops.

(* ===================================================================== *)
(** ** server/src/routes/agent.ts                                         *)
(* ===================================================================== *)

(** [interface ReportResultRequest], as it arrives: any field may be
    missing from the JSON body. *)
Record ReportResultRequest := mkReport {
  req_agentId : option string;
  req_commandId : option string;
  req_status : option string;
  req_result : Json;
  req_error : option string
}.

Record HeartbeatRequest := mkHeartbeatRequest {
  hb_agentId : option string;
  hb_commandId : option string
}.

Inductive ResponseBody :=
| Acknowledged (message : option string)
| ErrorBody (error : string).

(** HTTP status code and JSON body. *)
Definition Response : Type := Z * ResponseBody.

Definition parseTerminalStatus (s : string) : option TerminalStatus :=
  if String.eqb s "COMPLETED" then Some T_COMPLETED
  else if String.eqb s "FAILED" then Some T_FAILED
  else None.

(** [router.post('/result', ...)]. *)
Definition postResult (body : ReportResultRequest) (now hbNow : Z) (db : Db)
    : Response * Db :=
  match req_agentId body, req_commandId body, req_status body with
  | Some a, Some c, Some s =>
      if negb (truthy (Some a)) || negb (truthy (Some c)) || negb (truthy (Some s))
      then ((400, ErrorBody "Missing required fields"), db)
      else
        match parseTerminalStatus s with
        | None => ((400, ErrorBody "Status must be COMPLETED or FAILED"), db)
        | Some st =>
            let r := completeCommand c a st (req_result body) (req_error body)
                       now hbNow db in
            if negb r.1 then
              match getCommand c r.2 with
              | Some command =>
                  if isTerminal (status command)
                  then ((200, Acknowledged (Some "Command already completed (idempotent)")), r.2)
                  else ((409, ErrorBody "Cannot complete command - not assigned to this agent or not in RUNNING state"), r.2)
              | None =>
                  ((409, ErrorBody "Cannot complete command - not assigned to this agent or not in RUNNING state"), r.2)
              end
            else ((200, Acknowledged None), r.2)
        end
  | _, _, _ => ((400, ErrorBody "Missing required fields"), db)
  end.

(** [router.post('/heartbeat', ...)]. *)
Definition postHeartbeat (body : HeartbeatRequest) (now : Z) (db : Db)
    : Response * Db :=
  match hb_agentId body with
  | Some a =>
      if negb (truthy (Some a)) then ((400, ErrorBody "Missing agentId"), db)
      else ((200, Acknowledged None), updateHeartbeat a (hb_commandId body) now db)
  | None => ((400, ErrorBody "Missing agentId"), db)
  end.

(* ===================================================================== *)
(** ** Invariants and example stores                                      *)
(* ===================================================================== *)

(** A concrete store used in the examples: command [c1] was completed by
    agent [a], [c2] is running on agent [a], [c3] waits. *)
Definition delay100 : CommandPayload := {| ms := Some 100; url := None |}.

Definition exampleRows : list CommandRow :=
  [ mkRow "c1" DELAY delay100 COMPLETED (Some JNull) (Some "a") 1 9 (Some 5) (Some 9);
    mkRow "c2" DELAY delay100 RUNNING None (Some "a") 2 10 (Some 10) None;
    mkRow "c3" DELAY delay100 PENDING None None 3 3 None None ].

Definition exampleDb : Db :=
  {| commands := exampleRows;
     agent_heartbeats := {[ "a" := {| last_heartbeat := 10;
                                      current_command_id := Some "c2" |} ]} |}.

(** The invariant as the specification words it. *)
Definition ownershipAgreement (r : CommandRow) : Prop :=
  row_status r = RUNNING <-> (is_Some (agent_id r) /\ is_Some (started_at r)).

(** What the store maintains: a PENDING row has neither owner nor start
    time, every other row (RUNNING, COMPLETED, FAILED) has both. *)
Definition ownershipRow (r : CommandRow) : Prop :=
  match row_status r with
  | PENDING => agent_id r = None /\ started_at r = None
  | _ => is_Some (agent_id r) /\ is_Some (started_at r)
  end.

(** The specification's equivalence, claimed of every operation. *)
Definition ownershipAgreement_preserved_by (op : DbOp) (db : Db) : Prop :=
  Forall ownershipAgreement (commands db) ->
  Forall ownershipAgreement (commands (runOp op db)).

(** A store with one command running on agent [a]. *)
Definition runningDb : Db :=
  {| commands :=
       [ mkRow "c2" DELAY delay100 RUNNING None (Some "a") 2 10 (Some 10) None ];
     agent_heartbeats := {[ "a" := {| last_heartbeat := 10;
                                      current_command_id := Some "c2" |} ]} |}.


(** The primary key of [commands]. *)
Definition uniqueIds (db : Db) : Prop := NoDup (row_id <$> commands db).

(** The agent holds no RUNNING command. *)
Definition idle (a : string) (db : Db) : Prop :=
  forall r, r ∈ commands db -> ~ (agent_id r = Some a /\ row_status r = RUNNING).

Definition somePending (db : Db) : Prop :=
  exists r, r ∈ commands db /\ row_status r = PENDING.

(** The selection rule as the specification words it: the least
    [created_at], and among equal ones the least id. *)
Definition selectsOldestTieById (a : string) (now hbNow : Z) (db : Db) : Prop :=
  idle a db -> somePending db ->
  exists p, p ∈ commands db /\ row_status p = PENDING /\
    (forall q, q ∈ commands db -> row_status q = PENDING ->
       created_at p < created_at q \/
       (created_at p = created_at q /\
        (row_id p = row_id q \/ String.ltb (row_id p) (row_id q) = true))) /\
    id <$> (fetchNextCommand a now hbNow db).1 = Some (row_id p).

(** Three commands submitted in the same millisecond; the one inserted
    first has neither the least nor the greatest id. *)
Definition tieDb : Db :=
  {| commands :=
       [ mkRow "b" DELAY delay100 PENDING None None 5 5 None None;
         mkRow "a" DELAY delay100 PENDING None None 5 5 None None;
         mkRow "c" DELAY delay100 PENDING None None 5 5 None None ];
     agent_heartbeats := ∅ |}.

(** The wire form of a terminal status. *)
Definition statusText (st : TerminalStatus) : string :=
  match st with T_COMPLETED => "COMPLETED" | T_FAILED => "FAILED" end.

(** A well-typed result report. *)
Definition report (a c : string) (st : TerminalStatus) (res : Json)
    (e : option string) : ReportResultRequest :=
  {| req_agentId := Some a; req_commandId := Some c;
     req_status := Some (statusText st); req_result := res; req_error := e |}.

(** The specification's condition for the idempotent acknowledgement: the
    command already is in the requested terminal state and carries the
    reporting agent as its owner. *)
Definition replayOfOwnReport (a c : string) (st : TerminalStatus) (db : Db)
    : Prop :=
  exists r, r ∈ commands db /\ row_id r = c
            /\ row_status r = statusOf st /\ agent_id r = Some a.

(** C6 as the specification words it, for one rejected report. *)
Definition acknowledgesOnlyOwnReplay (a c : string) (st : TerminalStatus)
    (res : Json) (e : option string) (now hbNow : Z) (db : Db) : Prop :=
  a <> "" -> c <> "" ->
  (completeCommand c a st res e now hbNow db).1 = false ->
  ((postResult (report a c st res e) now hbNow db).1.1 = 200
     <-> replayOfOwnReport a c st db)
  /\ ((postResult (report a c st res e) now hbNow db).1.1 = 200
      \/ (postResult (report a c st res e) now hbNow db).1.1 = 409).

(** [WHERE agent_id = ? AND status = 'RUNNING'] for some agent of the list. *)
Definition ownerIn (agents : list string) (r : CommandRow) : bool :=
  isRunning r
  && match agent_id r with
     | Some a => bool_decide (a ∈ agents)
     | None => false
     end.

(** A RUNNING row whose owner has a heartbeat row that the reclaimer
    selects: older than the cutoff and with a current command. *)
Definition isStaleOwner (cutoff : Z) (hbs : gmap string HeartbeatRow)
    (r : CommandRow) : bool :=
  isRunning r
  && match agent_id r with
     | Some a => match hbs !! a with
                 | Some hb => isStale cutoff hb
                 | None => false
                 end
     | None => false
     end.




(** Heartbeat correspondence: the heartbeat row of the owner of a RUNNING
    command names that command. *)
Definition heartbeatCorrespondence (db : Db) : Prop :=
  forall r a, r ∈ commands db -> row_status r = RUNNING -> agent_id r = Some a ->
    exists hb, agent_heartbeats db !! a = Some hb
               /\ current_command_id hb = Some (row_id r).

(** No command has the empty string as id (ids are UUIDs). *)
Definition nonEmptyIds (db : Db) : Prop :=
  forall r, r ∈ commands db -> row_id r <> "".

(** The operations that keep the correspondence: a heartbeat has to name
    the command its agent is running, when there is one. *)
Definition keepsCorrespondence (op : DbOp) (db : Db) : Prop :=
  match op with
  | OpCreateCommand cid _ _ _ => cid <> ""
  | OpUpdateHeartbeat a c _ =>
      forall r, r ∈ commands db -> row_status r = RUNNING ->
                agent_id r = Some a -> c = Some (row_id r)
  | _ => True
  end.

(** C8 as the specification words it, for the heartbeat endpoint. *)
Definition correspondence_preserved_by_postHeartbeat (body : HeartbeatRequest)
    (now : Z) (db : Db) : Prop :=
  heartbeatCorrespondence db ->
  heartbeatCorrespondence (postHeartbeat body now db).2.

(* ===================================================================== *)
(** ** agent/src/executor/commands.ts                                     *)
(* ===================================================================== *)

(** A JavaScript string is a sequence of UTF-16 code units; the text of an
    HTTP response is kept in that form, since the executor measures it in
    bytes and cuts it in code units. *)
Definition Text : Type := list Z.

(** The code units of an ASCII string literal. *)
Definition textOf (s : string) : Text :=
  map (fun c => Z.of_nat (Ascii.nat_of_ascii c)) (String.list_ascii_of_string s).

Definition isHighSurrogate (u : Z) : bool := (55296 <=? u) && (u <=? 56319).
Definition isLowSurrogate (u : Z) : bool := (56320 <=? u) && (u <=? 57343).

(** [Buffer.byteLength(text, 'utf8')]: one byte below U+0080, two below
    U+0800, four for a surrogate pair, three otherwise (a lone surrogate is
    encoded as U+FFFD). *)
Fixpoint byteLength (t : Text) : Z :=
  match t with
  | [] => 0
  | u :: rest =>
      if u <? 128 then 1 + byteLength rest
      else if u <? 2048 then 2 + byteLength rest
      else if isHighSurrogate u then
        match rest with
        | v :: rest' =>
            if isLowSurrogate v then 4 + byteLength rest'
            else 3 + byteLength rest
        | [] => 3
        end
      else 3 + byteLength rest
  end.

(** [hay.includes(needle)]. *)
Fixpoint includes (hay needle : string) : bool :=
  String.prefix needle hay
  || match hay with
     | EmptyString => false
     | String _ rest => includes rest needle
     end.

(** The field [body : object | string | null] of a result. *)
Inductive Body :=
| BodyNull
| BodyText (t : Text)
| BodyJson (j : Json).

(** [interface HttpGetJsonResult]. *)
Record HttpGetJsonResult := mkHttpResult {
  http_status : Z;
  http_body : Body;
  truncated : bool;
  bytesReturned : Z;
  http_error : option string
}.

(** [interface DelayResult]. *)
Record DelayResult := mkDelayResult {
  ok : bool;
  tookMs : Z
}.

(** What the runtime does with the GET request: [fetch] rejects (the
    transport fails, or the 30 s timer aborts the request), or it resolves
    with a response whose body is then read by [response.text()], which
    may reject as well.  Each rejection carries the message of its error. *)
Inductive BodyRead :=
| BodyFailed (message : string)
| BodyArrived (text : Text).

Inductive FetchOutcome :=
| TransportFailure (message : string)
| DeadlineExpired (message : string)
| Responded (status : Z) (contentType : option string) (body : BodyRead).

(** The message of the error the [try] block of [executeHttpGetJson]
    raises, if any. *)
Definition failureMessage (o : FetchOutcome) : option string :=
  match o with
  | TransportFailure m | DeadlineExpired m => Some m
  | Responded _ _ (BodyFailed m) => Some m
  | Responded _ _ (BodyArrived _) => None
  end.

Definition truncatedMarker : Text := textOf "... [truncated]".

(** How a call ends: it returns, it throws, the process exits in a
    simulated crash, or the run outlasts the clock readings supplied. *)
Inductive Run (A : Type) :=
| Returned (a : A) (draws : list bool)
| Threw (message : string)
| Exited
| OutOfReadings.

Arguments Returned {A} a draws.
Arguments Threw {A} message.
Arguments Exited {A}.
Arguments OutOfReadings {A}.

Section Executor.

(** [JSON.parse]; [None] when it throws. *)
Variable JSON_parse : Text -> option Json.

(** The two nested [if (contentType.includes('application/json'))] blocks:
    the parsed value, or the fallback text. *)
Definition parseOr (contentType : string) (t fallback : Text) : Body :=
  if includes contentType "application/json" then
    match JSON_parse t with
    | Some j => BodyJson j
    | None => BodyText fallback
    end
  else BodyText fallback.

(** The [catch] block of [executeHttpGetJson]. *)
Definition errorResult (errorMessage : string) : HttpGetJsonResult :=
  {| http_status := 0; http_body := BodyNull; truncated := false;
     bytesReturned := 0; http_error := Some errorMessage |}.

(** [executeHttpGetJson], given what the request did. *)
Definition executeHttpGetJson (o : FetchOutcome) : HttpGetJsonResult :=
  match o with
  | TransportFailure errorMessage => errorResult errorMessage
  | DeadlineExpired errorMessage => errorResult errorMessage
  | Responded st ct (BodyFailed errorMessage) => errorResult errorMessage
  | Responded st ct (BodyArrived text) =>
      let contentType := default "" ct in
      let n := byteLength text in
      if MAX_BODY_SIZE <? n then
        let truncatedText := take (Z.to_nat MAX_BODY_SIZE) text in
        {| http_status := st;
           http_body := parseOr contentType truncatedText
                          (truncatedText ++ truncatedMarker);
           truncated := true;
           bytesReturned := n;
           http_error := None |}
      else
        {| http_status := st;
           http_body := parseOr contentType text text;
           truncated := false;
           bytesReturned := n;
           http_error := None |}
  end.

(** agent/src/index.ts, [maybeSimulateCrash]: [draws] lists the outcomes of
    the successive tests [Math.random() < 0.2]; [None] is [process.exit]. *)
Definition maybeSimulateCrash (randomFailures : bool) (draws : list bool)
    : option (list bool) :=
  if randomFailures then
    match draws with
    | true :: _ => None
    | false :: rest => Some rest
    | [] => Some []
    end
  else Some draws.

(** The loop of [executeDelay]; [clock] lists the successive values of
    [Date.now() - startTime], [onProgress] is the crash test of the agent. *)
Fixpoint delayLoop (targetMs elapsed : Z) (randomFailures : bool)
    (clock : list Z) (draws : list bool) {struct clock} : Run DelayResult :=
  match clock with
  | [] => OutOfReadings
  | t :: clock' =>
      if elapsed <? targetMs then
        match maybeSimulateCrash randomFailures draws with
        | None => Exited
        | Some draws' => delayLoop targetMs t randomFailures clock' draws'
        end
      else Returned {| ok := true; tookMs := t |} draws
  end.

Definition executeDelay (targetMs : Z) (randomFailures : bool)
    (clock : list Z) (draws : list bool) : Run DelayResult :=
  delayLoop targetMs 0 randomFailures clock draws.

(** [type CommandResult] on the agent's side. *)
Inductive ExecResult :=
| DelayDone (r : DelayResult)
| HttpDone (r : HttpGetJsonResult).

(** The world of one execution. *)
Record ExecEnv := mkEnv {
  randomFailures : bool;
  draws : list bool;
  clock : list Z;
  fetched : FetchOutcome
}.

(** [executeCommand]; the [onProgress] callback is handed to the DELAY
    executor only. *)
Definition executeCommand (env : ExecEnv) (command : Command)
    (ds : list bool) : Run ExecResult :=
  match type command with
  | DELAY =>
      match ms (payload command) with
      | None => Threw "Invalid DELAY payload"
      | Some targetMs =>
          match executeDelay targetMs (randomFailures env) (clock env) ds with
          | Returned r ds' => Returned (DelayDone r) ds'
          | Threw m => Threw m
          | Exited => Exited
          | OutOfReadings => OutOfReadings
          end
      end
  | HTTP_GET_JSON =>
      if negb (isHttpGetJsonPayload (payload command))
      then Threw "Invalid HTTP_GET_JSON payload"
      else Returned (HttpDone (executeHttpGetJson (fetched env))) ds
  end.

(** The body of the request [reportResult] posts to /agent/result. *)
Record AgentReport := mkAgentReport {
  rep_commandId : string;
  rep_status : TerminalStatus;
  rep_result : option ExecResult;
  rep_error : option string
}.

(** [Agent.executeAndReport]: the report sent, or [None] when the process
    exits (or the run does not end) before any report. *)
Definition executeAndReport (env : ExecEnv) (command : Command)
    : option AgentReport :=
  match maybeSimulateCrash (randomFailures env) (draws env) with
  | None => None
  | Some ds =>
      match executeCommand env command ds with
      | Returned res ds' =>
          match maybeSimulateCrash (randomFailures env) ds' with
          | None => None
          | Some _ =>
              Some {| rep_commandId := id command; rep_status := T_COMPLETED;
                      rep_result := Some res; rep_error := None |}
          end
      | Threw errorMessage =>
          Some {| rep_commandId := id command; rep_status := T_FAILED;
                  rep_result := None; rep_error := Some errorMessage |}
      | Exited => None
      | OutOfReadings => None
      end
  end.

End Executor.

(** A text of ASCII characters. *)
Definition asciiText (t : Text) : Prop := Forall (fun u => 0 <= u < 128) t.

(** C10 as the specification words it: the body returned for an oversize
    response is the prefix of the text that is MAX_BODY_SIZE bytes long. *)
Definition returnsBytePrefix (JSON_parse : Text -> option Json) (st : Z)
    (ct : option string) (text : Text) : Prop :=
  bytesReturned (executeHttpGetJson JSON_parse (Responded st ct (BodyArrived text)))
  = byteLength text
  /\ (MAX_BODY_SIZE < byteLength text ->
      truncated (executeHttpGetJson JSON_parse (Responded st ct (BodyArrived text)))
      = true
      /\ exists p,
           http_body (executeHttpGetJson JSON_parse
                        (Responded st ct (BodyArrived text))) = BodyText p
           /\ p `prefix_of` text /\ byteLength p = MAX_BODY_SIZE).

(** A parser that rejects every text. *)
Definition neverParses (_ : Text) : option Json := None.

(** 10241 letters [a]. *)
Definition oversizeText : Text := replicate (Z.to_nat 10241) 97.

(** An HTTP_GET_JSON command as the agent receives it. *)
Definition exampleHttpCommand : Command :=
  {| id := "c9"; type := HTTP_GET_JSON;
     payload := {| ms := None; url := Some "http://example.invalid/data" |};
     status := RUNNING; result := JNull; agentId := Some "a";
     createdAt := 1; updatedAt := 2; startedAt := Some 2; completedAt := None |}.

Definition refusedEnv : ExecEnv :=
  {| randomFailures := false; draws := []; clock := [];
     fetched := TransportFailure "connect ECONNREFUSED" |}.

(** 4000 euro signs (U+20AC), three bytes each in UTF-8. *)
Definition euroText : Text := replicate (Z.to_nat 4000) 8364.

(* ===================================================================== *)
(** ** The rest of the store, of the routes and of the agent              *)
(* ===================================================================== *)

(** *** server/src/db/database.ts: [getAllCommands] *)

(** [ORDER BY created_at ASC] over all rows: rows with one [created_at]
    stay in scan order, as in [orderByCreatedAtLimit1]. *)
Fixpoint insertByCreatedAt (r : CommandRow) (sorted : list CommandRow)
    : list CommandRow :=
  match sorted with
  | [] => [r]
  | s :: rest =>
      if created_at r <=? created_at s then r :: s :: rest
      else s :: insertByCreatedAt r rest
  end.

Definition orderByCreatedAt (rows : list CommandRow) : list CommandRow :=
  foldr insertByCreatedAt [] rows.

(** [getAllCommands]. *)
Definition getAllCommands (db : Db) : list Command :=
  rowToCommand <$> orderByCreatedAt (commands db).

(** *** How one row moves under one operation *)

(** The four ways an operation rewrites a row of the store it runs on:
    only a fetch by an idle agent assigns, and only the PENDING row its
    query selects; only RUNNING rows are reset or finished. *)
Inductive rowStep (db : Db) (op : DbOp) (r : CommandRow) : CommandRow -> Prop :=
| StepSame : rowStep db op r r
| StepAssigned (a : string) (now hbNow : Z) :
    op = OpFetchNextCommand a now hbNow -> idle a db ->
    orderByCreatedAtLimit1 (filter (fun x => isPending x = true) (commands db))
    = Some r ->
    row_status r = PENDING -> rowStep db op r (assignRow a now r)
| StepReset (now : Z) :
    row_status r = RUNNING -> rowStep db op r (resetRow now r)
| StepFinished (c a : string) (st : TerminalStatus) (res : Json)
    (e : option string) (now hbNow : Z) :
    op = OpCompleteCommand c a st res e now hbNow ->
    row_id r = c -> row_status r = RUNNING -> agent_id r = Some a ->
    rowStep db op r (finishRow (statusOf st) (finalResult res e) now r).

(** A row as [createCommand] inserts it. *)
Definition freshRow (r : CommandRow) : Prop :=
  row_status r = PENDING /\ row_result r = None /\ agent_id r = None
  /\ started_at r = None /\ completed_at r = None.

(** The transitions of the command state machine. *)
Definition legalTransition (s s' : CommandStatus) : bool :=
  match s, s' with
  | PENDING, (PENDING | RUNNING) => true
  | RUNNING, _ => true
  | COMPLETED, COMPLETED => true
  | FAILED, FAILED => true
  | _, _ => false
  end.

(** At most one RUNNING command per agent. *)
Definition singleAssignment (db : Db) : Prop :=
  forall i j r1 r2 a,
    commands db !! i = Some r1 -> commands db !! j = Some r2 ->
    runningFor a r1 = true -> runningFor a r2 = true -> i = j.

(** The column [result] is written on the transition into a terminal
    state only, together with [completed_at]: a row with a result is
    COMPLETED or FAILED, and [completed_at] is set exactly on such rows.
    (A terminal row may have no result: a report can come without one.) *)
Definition resultGating (r : CommandRow) : Prop :=
  (is_Some (row_result r) -> isTerminal (row_status r) = true)
  /\ (is_Some (completed_at r) <-> isTerminal (row_status r) = true).

(** An integer that a JavaScript number and its JSON text carry exactly
    (up to [Number.MAX_SAFE_INTEGER]). *)
Definition safeInteger (n : Z) : bool :=
  (- (2 ^ 53 - 1) <=? n) && (n <=? 2 ^ 53 - 1).

(** A payload whose [ms], if any, is such an integer: [JSON.stringify]
    followed by [JSON.parse] gives it back. *)
Definition safePayload (p : CommandPayload) : bool :=
  match ms p with
  | Some n => safeInteger n
  | None => true
  end.

(** A property name that is not an array index (such names come first in
    property order, whatever the order they were written in). *)
Definition plainKey (k : string) : bool :=
  match k with
  | EmptyString => true
  | String c _ =>
      negb ((48 <=? Ascii.nat_of_ascii c)%nat && (Ascii.nat_of_ascii c <=? 57)%nat)
  end.

Fixpoint hasKey (k : string) (fs : JFields) : bool :=
  match fs with
  | FNil => false
  | FCons k' _ rest => String.eqb k' k || hasKey k rest
  end.

(** JSON values on which the model of the [result] column is exact:
    numbers are safe integers, the property names of an object are
    distinct and none is an array index. *)
Fixpoint plainJson (j : Json) : bool :=
  match j with
  | JNum n => safeInteger n
  | JObj fs => plainFields fs
  | _ => true
  end
with plainFields (fs : JFields) : bool :=
  match fs with
  | FNil => true
  | FCons k v rest =>
      plainKey k && negb (hasKey k rest) && plainJson v && plainFields rest
  end.

(** A result of the type [CommandResult]: null or an object. *)
Definition typedResult (res : Json) : bool :=
  match res with
  | JNull => true
  | JObj fs => plainFields fs
  | _ => false
  end.

(** *** server/src/routes/agent.ts: /fetch and /sync *)

(** [FetchCommandRequest] and [SyncRequest]. *)
Record AgentRequest := mkAgentRequest {
  ar_agentId : option string
}.

(** [FetchCommandResponse] and [SyncResponse], or an error body. *)
Inductive CommandResponseBody :=
| CommandBody (command : option Command)
| CommandError (error : string).

(** [router.post('/fetch', ...)]. *)
Definition postFetch (body : AgentRequest) (now hbNow : Z) (db : Db)
    : (Z * CommandResponseBody) * Db :=
  if negb (truthy (ar_agentId body))
  then ((400, CommandError "Missing agentId"), db)
  else
    let r := fetchNextCommand (default "" (ar_agentId body)) now hbNow db in
    ((200, CommandBody r.1), r.2).

(** [router.post('/sync', ...)]. *)
Definition postSync (body : AgentRequest) (db : Db)
    : (Z * CommandResponseBody) * Db :=
  if negb (truthy (ar_agentId body))
  then ((400, CommandError "Missing agentId"), db)
  else
    ((200, CommandBody (getUnfinishedCommand (default "" (ar_agentId body)) db)),
     db).

(** *** server/src/routes/commands.ts *)

(** The [payload] field of a request body, as far as the checks see it:
    falsy (missing, null, 0, empty string, false), truthy but not an
    object, or an object. *)
Inductive RawPayload :=
| PayloadFalsy
| PayloadNotObject
| PayloadObject (p : CommandPayload).

(** [interface CreateCommandRequest], as it arrives. *)
Record CreateCommandRequest := mkCreateRequest {
  cr_type : option string;
  cr_payload : RawPayload
}.

Inductive CreateResponseBody :=
| CreatedBody (commandId : string)
| CreateError (error : string).

(** [interface GetCommandResponse]. *)
Record GetCommandResponse := mkGetResponse {
  gr_status : CommandStatus;
  gr_result : Json;
  gr_agentId : option string
}.

(** [isValidCommandType]. *)
Definition isValidCommandType (s : string) : bool :=
  String.eqb s "DELAY" || String.eqb s "HTTP_GET_JSON".

(** The [CommandType] a valid type string is narrowed to. *)
Definition asCommandType (s : string) : CommandType :=
  if String.eqb s "DELAY" then DELAY else HTTP_GET_JSON.

(** A message with a field name in double quotes. *)
Definition quoted (before field after : string) : string :=
  String.append before
    (String (Ascii.ascii_of_nat 34)
       (String.append field (String (Ascii.ascii_of_nat 34) after))).

Section CommandRoutes.

(** [new URL(s)] does not throw. *)
Variable validUrl : string -> bool.

(** [validatePayload]: the error message, or [None] for [null]. *)
Definition validatePayload (ty : CommandType) (raw : RawPayload)
    : option string :=
  match raw with
  | PayloadFalsy | PayloadNotObject => Some "Payload must be an object"
  | PayloadObject p =>
      match ty with
      | DELAY =>
          match ms p with
          | None => Some (quoted "DELAY payload must have " "ms"
                            " as a positive number")
          | Some n =>
              if n <=? 0
              then Some (quoted "DELAY " "ms" " must be a positive number")
              else None
          end
      | HTTP_GET_JSON =>
          match url p with
          | None => Some (quoted "HTTP_GET_JSON payload must have " "url"
                            " as a string")
          | Some u =>
              if validUrl u then None
              else Some (quoted "HTTP_GET_JSON " "url" " must be a valid URL")
          end
      end
  end.

(** [router.post('/', ...)]; [commandId] is the value of [uuidv4()]. *)
Definition postCommand (body : CreateCommandRequest) (commandId : string)
    (now : Z) (db : Db) : (Z * CreateResponseBody) * Db :=
  match cr_type body, cr_payload body with
  | None, _ | _, PayloadFalsy =>
      ((400, CreateError "Missing type or payload"), db)
  | Some t, raw =>
      if negb (truthy (Some t))
      then ((400, CreateError "Missing type or payload"), db)
      else if negb (isValidCommandType t)
      then ((400, CreateError "Invalid command type. Must be DELAY or HTTP_GET_JSON"), db)
      else
        match validatePayload (asCommandType t) raw with
        | Some payloadError => ((400, CreateError payloadError), db)
        | None =>
            match raw with
            | PayloadObject p =>
                match createCommand commandId (asCommandType t) p now db with
                | Some (_, db') => ((201, CreatedBody commandId), db')
                | None => ((500, CreateError "Internal server error"), db)
                end
            | _ =>
                (* not reached: [validatePayload] refuses these *)
                ((500, CreateError "Internal server error"), db)
            end
        end
  end.

End CommandRoutes.

(** [router.get('/:id', ...)]. *)
Definition getCommandRoute (cid : string) (db : Db)
    : Z * option GetCommandResponse :=
  match getCommand cid db with
  | None => (404, None)
  | Some command =>
      (200, Some {| gr_status := status command; gr_result := result command;
                    gr_agentId := agentId command |})
  end.

(** The message of the idempotent acknowledgement. *)
Definition alreadyCompleted : ResponseBody :=
  Acknowledged (Some "Command already completed (idempotent)").

(** No row of the table is RUNNING. *)
Definition noneRunning (db : Db) : Prop :=
  forall r, r ∈ commands db -> row_status r <> RUNNING.

(** A list of timestamps in ascending order. *)
Fixpoint ascending (l : list Z) : Prop :=
  match l with
  | [] => True
  | x :: rest => Forall (Z.le x) rest /\ ascending rest
  end.

(** The Command an assignment at time [now] to agent [a] makes of a
    listed one. *)
Definition assigned (a : string) (now : Z) (c : Command) : Command :=
  {| id := id c; type := type c; payload := payload c; status := RUNNING;
     result := result c; agentId := Some a; createdAt := createdAt c;
     updatedAt := now; startedAt := Some now; completedAt := completedAt c |}.

(** What [validatePayload] demands of an object payload ([ms] is a count of
    milliseconds, an integer in this model). *)
Definition payloadOk (validUrl : string -> bool) (ty : CommandType)
    (p : CommandPayload) : bool :=
  match ty with
  | DELAY => match ms p with Some n => 0 <? n | None => false end
  | HTTP_GET_JSON => match url p with Some u => validUrl u | None => false end
  end.

(** The payload is of the shape the executor of the type requires (the
    guard [executeCommand] applies). *)
Definition payloadFits (ty : CommandType) (p : CommandPayload) : bool :=
  match ty with
  | DELAY => isDelayPayload p
  | HTTP_GET_JSON => isHttpGetJsonPayload p
  end.

(** The message [executeCommand] throws for a payload that does not fit. *)
Definition invalidPayloadMessage (ty : CommandType) : string :=
  match ty with
  | DELAY => "Invalid DELAY payload"
  | HTTP_GET_JSON => "Invalid HTTP_GET_JSON payload"
  end.

(** *** agent/src/index.ts *)

Section Retry.

(** The type of a response, and the outcome of the [i]-th call of [fetch]:
    the error it rejects with, or the response. *)
Context {R : Type}.
Variable attempt : nat -> string + R.

(** The [for] loop of [fetchWithRetry] from iteration [i] on, [fuel] being
    the iterations left; the second component lists the [sleep]s made. *)
Fixpoint retryLoop (retries fuel i : nat) (delay : Z)
    : (string + R) * list Z :=
  match fuel with
  | O => (inl "Unreachable", [])
  | S fuel' =>
      match attempt i with
      | inr response => (inr response, [])
      | inl error =>
          if (i =? retries - 1)%nat then (inl error, [])
          else
            let rest := retryLoop retries fuel' (S i) (delay * 2) in
            (rest.1, delay :: rest.2)
      end
  end.

(** [fetchWithRetry(url, options, retries = 3, delay = 1000)]. *)
Definition fetchWithRetry (retries : nat) (delay : Z) : (string + R) * list Z :=
  retryLoop retries retries 0 delay.

End Retry.

(** The waits of an exponential backoff: [delay], [2 delay], [4 delay]... *)
Definition backoff (delay : Z) (k : nat) : list Z :=
  (fun j => delay * 2 ^ Z.of_nat j) <$> seq 0 k.

Definition crashReason : string :=
  "Agent crashed during execution - state unknown".

(** [Agent.handleUnfinishedCommand], run against the handlers of the
    server with every request and response delivered: the store it leaves.
    [syncWithServer] yields the [unfinishedCommand] of a 2xx answer, and
    [reportResult] posts status FAILED, result null and the reason. *)
Definition handleUnfinishedCommand (agentId : string) (now hbNow : Z) (db : Db)
    : Db :=
  match (postSync {| ar_agentId := Some agentId |} db).1 with
  | (200, CommandBody (Some unfinishedCommand)) =>
      (postResult (report agentId (id unfinishedCommand) T_FAILED JNull
                     (Some crashReason)) now hbNow db).2
  | _ => db
  end.

(** The longest text body a result can carry, in bytes. *)
Definition maxTextBodyBytes : Z := 3 * (MAX_BODY_SIZE + 15).

(** The body of the 409 answer of POST /agent/result. *)
Definition notOwnerOrNotRunning : ResponseBody :=
  ErrorBody "Cannot complete command - not assigned to this agent or not in RUNNING state".
(* ===================================================================== *)
(** ** Properties of the store                                            *)
(* ===================================================================== *)

Section StoreFacts.

Implicit Types (db : Db) (r : CommandRow) (rows : list CommandRow).

Lemma runningFor_spec a r :
  runningFor a r = true <-> agent_id r = Some a /\ row_status r = RUNNING.
Proof.
  unfold runningFor, ownedBy, isRunning.
  rewrite andb_true_iff, !bool_decide_eq_true. tauto.
Qed.

Lemma hasId_spec c r : hasId c r = true <-> row_id r = c.
Proof. unfold hasId. apply bool_decide_eq_true. Qed.

Lemma find_Some_elem (p : CommandRow -> bool) rows r :
  find p rows = Some r -> r ∈ rows /\ p r = true.
Proof.
  intros H. apply find_some in H as [Hin Hp].
  split; [by apply list_elem_of_In | done].
Qed.

Lemma find_None_elem (p : CommandRow -> bool) rows r :
  find p rows = None -> r ∈ rows -> p r = false.
Proof.
  intros H Hin. apply (find_none p rows H). by apply list_elem_of_In.
Qed.

Lemma find_is_Some (p : CommandRow -> bool) rows r :
  r ∈ rows -> p r = true -> is_Some (find p rows).
Proof.
  intros Hin Hp. destruct (find p rows) eqn:E; [by eexists|].
  rewrite (find_None_elem _ _ _ E Hin) in Hp. discriminate.
Qed.

Lemma countWhere_pos (cond : CommandRow -> bool) rows r :
  r ∈ rows -> cond r = true -> (0 < countWhere cond rows)%nat.
Proof.
  intros Hin Hc. unfold countWhere.
  assert (Hf : r ∈ filter (fun x => cond x = true) rows)
    by (apply list_elem_of_filter; done).
  destruct (filter _ rows); [by apply elem_of_nil in Hf | simpl; lia].
Qed.

Lemma updateWhere_lookup cond f rows i :
  updateWhere cond f rows !! i
  = (fun r => if cond r then f r else r) <$> rows !! i.
Proof. unfold updateWhere. apply list_lookup_fmap. Qed.

Lemma updateWhere_elem cond f rows r' :
  r' ∈ updateWhere cond f rows ->
  exists r, r ∈ rows /\ r' = (if cond r then f r else r).
Proof.
  unfold updateWhere. intros H.
  apply list_elem_of_fmap in H as (r & -> & Hin). eauto.
Qed.

Lemma updateWhere_ids cond f rows :
  (forall r, row_id (f r) = row_id r) ->
  row_id <$> updateWhere cond f rows = row_id <$> rows.
Proof.
  intros Hf. unfold updateWhere.
  induction rows as [|r rows IH]; simpl; [done|].
  f_equal; [by destruct (cond r) | exact IH].
Qed.

End StoreFacts.

(** A refused completion does not touch the store. *)
Lemma completeCommand_unchanged (c a : string) (st : TerminalStatus)
    (res : Json) (e : option string) (now hbNow : Z) (db : Db) :
  ((completeCommand c a st res e now hbNow db).1 = true <->
     is_Some (find (fun r => hasId c r && runningFor a r) (commands db)))
  /\ ((completeCommand c a st res e now hbNow db).1 = false ->
      (completeCommand c a st res e now hbNow db).2 = db).
Proof.
  unfold completeCommand.
  destruct (find _ (commands db)) as [r|] eqn:Hfind; simpl.
  - apply find_Some_elem in Hfind as [Hin Hp].
    apply andb_true_iff in Hp as [Hid Hrun].
    assert (Hpos : (0 < countWhere
              (fun r0 => hasId c r0 && ownedBy a r0) (commands db))%nat).
    { apply (countWhere_pos _ _ r Hin).
      unfold runningFor in Hrun. apply andb_true_iff in Hrun as [Ho _].
      by rewrite Hid, Ho. }
    apply Nat.ltb_lt in Hpos. rewrite Hpos. split; [|discriminate].
    split; [by eexists | done].
  - split; [|done]. split; [discriminate|]. by intros [x [=]].
Qed.

(** *** C3: the verdict of [completeCommand] *)

(** C3.  [completeCommand] answers [true] exactly when the table holds a row
    with the given id that is RUNNING and owned by the given agent; when it
    answers [false] the whole store, commands and heartbeats, is the one it
    was called on. *)
Theorem completeCommand_verdict (c a : string) (st : TerminalStatus)
    (res : Json) (e : option string) (now hbNow : Z) (db : Db) :
  ((completeCommand c a st res e now hbNow db).1 = true <->
     exists r, r ∈ commands db /\ row_id r = c /\ row_status r = RUNNING
               /\ agent_id r = Some a)
  /\ ((completeCommand c a st res e now hbNow db).1 = false ->
      (completeCommand c a st res e now hbNow db).2 = db).
Proof.
  destruct (completeCommand_unchanged c a st res e now hbNow db) as [Htrue Hfalse].
  split; [|exact Hfalse]. rewrite Htrue. split.
  - intros [r Hfind]. apply find_Some_elem in Hfind as [Hin Hp].
    apply andb_true_iff in Hp as [Hid Hrun].
    apply hasId_spec in Hid. apply runningFor_spec in Hrun.
    exists r. tauto.
  - intros (r & Hin & Hid & Hst & Hag).
    apply (find_is_Some _ _ r Hin).
    rewrite (proj2 (hasId_spec c r) Hid). simpl.
    by apply runningFor_spec.
Qed.

Lemma completeCommand_verdict_witness :
  (completeCommand "c1" "a" T_COMPLETED JNull None 20 21 exampleDb).2 = exampleDb.
Proof.
  apply (completeCommand_verdict "c1" "a" T_COMPLETED JNull None 20 21 exampleDb).
  vm_compute. reflexivity.
Defined.

(** *** C1: ownership agreement *)

Section Ownership.

Lemma Forall_updateWhere (P : CommandRow -> Prop) cond f rows :
  Forall P rows ->
  (forall r, P r -> cond r = true -> P (f r)) ->
  Forall P (updateWhere cond f rows).
Proof.
  intros Hrows Hf. unfold updateWhere. apply Forall_fmap.
  eapply Forall_impl; [exact Hrows|].
  intros r Hr. simpl. destruct (cond r) eqn:E; auto.
Qed.

Lemma ownershipRow_reset now r : ownershipRow (resetRow now r).
Proof. by unfold ownershipRow. Qed.

Lemma ownershipRow_assign a now r : ownershipRow (assignRow a now r).
Proof. unfold ownershipRow; simpl. split; by eexists. Qed.

Lemma ownershipRow_finish a st res now r :
  ownershipRow r -> ownedBy a r = true ->
  ownershipRow (finishRow (statusOf st) res now r).
Proof.
  unfold ownershipRow, ownedBy. intros Hr Ho.
  apply bool_decide_eq_true in Ho.
  assert (Hboth : is_Some (agent_id r) /\ is_Some (started_at r)).
  { destruct (row_status r); try exact Hr.
    destruct Hr as [Hr _]. congruence. }
  destruct st; simpl; exact Hboth.
Qed.

(** The loop of [checkStaleCommands] keeps any property of the rows that
    [resetRow] establishes. *)
Lemma reclaim_loop_Forall (P : CommandRow -> Prop) now agents acc :
  (forall r, P (resetRow now r)) ->
  Forall P (commands acc.2) ->
  Forall P (commands (foldl (reclaimAgent now) acc agents).2).
Proof.
  intros Hreset. revert acc.
  induction agents as [|a agents IH]; intros acc Hacc; simpl; [done|].
  apply IH. simpl. apply Forall_updateWhere; auto.
Qed.

End Ownership.

(** C1 (amended).  Every operation of the store keeps, for every row: a
    PENDING row has [agent_id] and [started_at] NULL, and a RUNNING,
    COMPLETED or FAILED row has both set.  In particular RUNNING implies
    an owner and a start time; the converse of the specification's
    equivalence is not kept, a finished command retains both columns. *)
Theorem ownership_preserved (op : DbOp) (db : Db) :
  Forall ownershipRow (commands db) ->
  Forall ownershipRow (commands (runOp op db)).
Proof.
  intros Hinv. destruct op; simpl.
  - unfold createCommand. destruct (existsb _ _); [done|]. simpl.
    apply Forall_app. split; [done|]. by apply Forall_singleton.
  - unfold fetchNextCommand.
    destruct (find _ _); [done|].
    destruct (orderByCreatedAtLimit1 _); [|done]. simpl.
    apply Forall_updateWhere; [done|].
    intros r _ _. apply ownershipRow_assign.
  - unfold completeCommand.
    destruct (find _ _); [|done]. simpl.
    apply Forall_updateWhere; [done|].
    intros r Hr Hc. apply andb_true_iff in Hc as [_ Ho].
    by eapply ownershipRow_finish.
  - done.
  - unfold checkStaleCommands. destruct (_ =? _)%nat; [done|].
    apply reclaim_loop_Forall; [apply ownershipRow_reset | done].
  - unfold recoverFromCrash. destruct (_ <? _)%nat; [|done]. simpl.
    apply Forall_updateWhere; [done|].
    intros r _ _. apply ownershipRow_reset.
Qed.

Lemma ownership_preserved_witness :
  Forall ownershipRow
    (commands (runOp (OpCompleteCommand "c2" "a" T_COMPLETED JNull None 20 21)
                 exampleDb)).
Proof.
  apply (ownership_preserved
           (OpCompleteCommand "c2" "a" T_COMPLETED JNull None 20 21) exampleDb).
  unfold exampleDb, exampleRows; simpl.
  repeat constructor; unfold ownershipRow; simpl; try done; by eexists.
Defined.

(** C1, as stated, fails: the owner completes [c2]; the row becomes COMPLETED
    and keeps its [agent_id] and [started_at]. *)
Lemma ownershipAgreement_broken_by_completeCommand :
  ~ ownershipAgreement_preserved_by
      (OpCompleteCommand "c2" "a" T_COMPLETED JNull None 20 21) runningDb.
Proof.
  unfold ownershipAgreement_preserved_by. intros H.
  assert (Hpre : Forall ownershipAgreement (commands runningDb)).
  { repeat constructor; simpl; try done; by eexists. }
  specialize (H Hpre). vm_compute in H.
  apply Forall_cons in H as [[_ H] _].
  assert (Hc : COMPLETED = RUNNING) by (apply H; split; by eexists).
  discriminate.
Qed.

(** *** C4: terminal immutability *)

Section Terminal.

Implicit Types (db : Db) (r : CommandRow) (rows : list CommandRow).

(** Under the primary key, two rows with one id are one row. *)
Lemma uniqueIds_same_row db r1 r2 :
  uniqueIds db -> r1 ∈ commands db -> r2 ∈ commands db ->
  row_id r1 = row_id r2 -> r1 = r2.
Proof.
  unfold uniqueIds. intros Hnd H1 H2 Hid.
  apply list_elem_of_lookup in H1 as [i Hi].
  apply list_elem_of_lookup in H2 as [j Hj].
  assert (Hij : i = j).
  { eapply (NoDup_lookup _ i j (row_id r1) Hnd).
    - by rewrite list_lookup_fmap, Hi.
    - by rewrite list_lookup_fmap, Hj, Hid. }
  subst j. congruence.
Qed.

Lemma orderByCreatedAtLimit1_elem rows p :
  orderByCreatedAtLimit1 rows = Some p -> p ∈ rows.
Proof.
  revert p. induction rows as [|r rows IH]; intros p; simpl; [done|].
  destruct (orderByCreatedAtLimit1 rows) as [b|].
  - destruct (_ <? _); intros [= <-].
    + apply list_elem_of_further. by apply IH.
    + apply list_elem_of_here.
  - intros [= <-]. apply list_elem_of_here.
Qed.

(** The row the ORDER BY query returns is a PENDING row of the table. *)
Lemma selected_pending rows p :
  orderByCreatedAtLimit1 (filter (fun r => isPending r = true) rows) = Some p ->
  p ∈ rows /\ row_status p = PENDING.
Proof.
  intros H. apply orderByCreatedAtLimit1_elem in H.
  apply list_elem_of_filter in H as [Hp Hin]. split; [done|].
  unfold isPending in Hp. by apply bool_decide_eq_true in Hp.
Qed.

Lemma updateWhere_keeps cond f rows i r :
  rows !! i = Some r -> cond r = false ->
  updateWhere cond f rows !! i = Some r.
Proof.
  intros Hi Hc. rewrite updateWhere_lookup, Hi. simpl. by rewrite Hc.
Qed.

Lemma terminal_not_running a r :
  isTerminal (row_status r) = true -> runningFor a r = false.
Proof.
  intros Ht. unfold runningFor, isRunning.
  destruct (row_status r); try discriminate;
    rewrite bool_decide_eq_false_2 by discriminate; apply andb_false_r.
Qed.

Lemma reclaim_loop_terminal now agents acc i r :
  commands acc.2 !! i = Some r -> isTerminal (row_status r) = true ->
  commands (foldl (reclaimAgent now) acc agents).2 !! i = Some r.
Proof.
  intros Hi Ht. revert acc Hi.
  induction agents as [|a agents IH]; intros acc Hi; simpl; [done|].
  apply IH. simpl. apply updateWhere_keeps; [done|].
  by apply terminal_not_running.
Qed.

Lemma reclaim_loop_ids now agents acc :
  row_id <$> commands (foldl (reclaimAgent now) acc agents).2
  = row_id <$> commands acc.2.
Proof.
  revert acc. induction agents as [|a agents IH]; intros acc; simpl; [done|].
  rewrite IH. simpl. by apply updateWhere_ids.
Qed.

(** Every operation keeps the primary key. *)
Lemma uniqueIds_runOp op db : uniqueIds db -> uniqueIds (runOp op db).
Proof.
  unfold uniqueIds. intros Hnd. destruct op; simpl.
  - unfold createCommand. destruct (existsb _ _) eqn:E; [done|]. simpl.
    rewrite fmap_app. apply NoDup_app. split; [done|]. split.
    + intros x Hx Hx'. apply list_elem_of_singleton in Hx'. subst x.
      apply list_elem_of_fmap in Hx as (r & Hid & Hin).
      assert (Hex : existsb (hasId cid) (commands db) = true).
      { apply existsb_exists. exists r. split; [by apply list_elem_of_In|].
        by apply hasId_spec. }
      congruence.
    + apply NoDup_singleton.
  - unfold fetchNextCommand.
    destruct (find _ _); [done|].
    destruct (orderByCreatedAtLimit1 _); [|done]. simpl.
    by rewrite updateWhere_ids.
  - unfold completeCommand. destruct (find _ _); [|done]. simpl.
    by rewrite updateWhere_ids.
  - done.
  - unfold checkStaleCommands. destruct (_ =? _)%nat; [done|].
    by rewrite reclaim_loop_ids.
  - unfold recoverFromCrash. destruct (_ <? _)%nat; [|done]. simpl.
    by rewrite updateWhere_ids.
Qed.

(** One operation leaves a terminal row as it is, every column of it. *)
Lemma terminal_row_kept op db i r :
  uniqueIds db ->
  commands db !! i = Some r -> isTerminal (row_status r) = true ->
  commands (runOp op db) !! i = Some r.
Proof.
  intros Hnd Hi Ht.
  assert (Hin : r ∈ commands db) by (apply list_elem_of_lookup; eauto).
  destruct op; simpl.
  - unfold createCommand. destruct (existsb _ _); [done|]. simpl.
    by apply lookup_app_l_Some.
  - unfold fetchNextCommand.
    destruct (find _ _); [done|].
    destruct (orderByCreatedAtLimit1 _) as [p|] eqn:Hsel; [|done]. simpl.
    apply selected_pending in Hsel as [Hp Hst].
    apply updateWhere_keeps; [done|].
    destruct (hasId (row_id p) r) eqn:E; [|done].
    apply hasId_spec in E.
    rewrite (uniqueIds_same_row db r p Hnd Hin Hp E), Hst in Ht. discriminate.
  - unfold completeCommand.
    destruct (find _ _) as [r0|] eqn:Hfind; [|done]. simpl.
    apply find_Some_elem in Hfind as [Hin0 Hp0].
    apply andb_true_iff in Hp0 as [Hid0 Hrun0].
    apply hasId_spec in Hid0. apply runningFor_spec in Hrun0 as [_ Hst0].
    apply updateWhere_keeps; [done|].
    destruct (hasId commandId r) eqn:E; [|done].
    apply hasId_spec in E.
    assert (r = r0) as -> by (apply (uniqueIds_same_row db); congruence).
    rewrite Hst0 in Ht. discriminate.
  - done.
  - unfold checkStaleCommands. destruct (_ =? _)%nat; [done|].
    by apply reclaim_loop_terminal.
  - unfold recoverFromCrash. destruct (_ <? _)%nat; [|done]. simpl.
    apply updateWhere_keeps; [done|].
    unfold isRunning. destruct (row_status r); try discriminate;
      by rewrite bool_decide_eq_false_2.
Qed.

Lemma uniqueIds_runOps ops db : uniqueIds db -> uniqueIds (runOps ops db).
Proof.
  revert db. induction ops as [|op ops IH]; intros db Hnd; simpl; [done|].
  apply IH. by apply uniqueIds_runOp.
Qed.

End Terminal.

(** C4.  In a table with unique ids, a row that is COMPLETED or FAILED is
    found unchanged, in every column, at its place after any sequence of
    store operations (createCommand, fetchNextCommand, completeCommand,
    updateHeartbeat, checkStaleCommands, recoverFromCrash); so its status
    is never PENDING or RUNNING again. *)
Theorem terminal_immutability (ops : list DbOp) (db : Db) (i : nat)
    (r : CommandRow) :
  uniqueIds db ->
  commands db !! i = Some r ->
  isTerminal (row_status r) = true ->
  commands (runOps ops db) !! i = Some r.
Proof.
  revert db. induction ops as [|op ops IH]; intros db Hnd Hi Ht; simpl; [done|].
  apply IH; [by apply uniqueIds_runOp | by apply terminal_row_kept | done].
Qed.

Lemma terminal_immutability_witness :
  commands
    (runOps [ OpCompleteCommand "c1" "a" T_FAILED JNull (Some "late") 20 21;
              OpFetchNextCommand "b" 22 23;
              OpCheckStaleCommands 5 100 101;
              OpRecoverFromCrash 200 ] exampleDb) !! 0%nat
  = Some (mkRow "c1" DELAY delay100 COMPLETED (Some JNull) (Some "a") 1 9
            (Some 5) (Some 9)).
Proof.
  apply terminal_immutability.
  - unfold uniqueIds. apply (bool_decide_unpack _). vm_compute. exact I.
  - reflexivity.
  - reflexivity.
Defined.

(** *** C2: a repeated fetch *)

Section Fetch.

Implicit Types (db : Db) (r : CommandRow) (rows : list CommandRow).

Lemma find_map (p : CommandRow -> bool) (g : CommandRow -> CommandRow) rows :
  find p (map g rows) = g <$> find (fun r => p (g r)) rows.
Proof.
  induction rows as [|r rows IH]; simpl; [done|].
  destruct (p (g r)); [done | exact IH].
Qed.

Lemma find_agree (p q : CommandRow -> bool) rows :
  (forall r, r ∈ rows -> p r = q r) -> find p rows = find q rows.
Proof.
  induction rows as [|r rows IH]; intros H; simpl; [done|].
  rewrite (H r) by apply list_elem_of_here.
  destruct (q r); [done|]. apply IH. intros x Hx. apply H.
  by apply list_elem_of_further.
Qed.

Lemma find_by_id db p :
  uniqueIds db -> p ∈ commands db ->
  find (hasId (row_id p)) (commands db) = Some p.
Proof.
  intros Hnd Hin.
  destruct (find_is_Some (hasId (row_id p)) (commands db) p Hin) as [x Hx].
  { by apply hasId_spec. }
  rewrite Hx. apply find_Some_elem in Hx as [Hxin Hxid].
  apply hasId_spec in Hxid. f_equal. by apply (uniqueIds_same_row db).
Qed.

Lemma idle_iff_find a db :
  find (runningFor a) (commands db) = None <-> idle a db.
Proof.
  unfold idle. split.
  - intros H r Hin Hr. apply runningFor_spec in Hr.
    rewrite (find_None_elem _ _ _ H Hin) in Hr. discriminate.
  - intros H. destruct (find _ _) as [r|] eqn:E; [|done].
    apply find_Some_elem in E as [Hin Hr]. apply runningFor_spec in Hr.
    destruct (H r Hin Hr).
Qed.

(** The row found by the second fetch is the one the first assigned. *)
Lemma find_assigned a now db p :
  uniqueIds db -> p ∈ commands db ->
  find (runningFor a) (commands db) = None ->
  find (runningFor a)
       (updateWhere (hasId (row_id p)) (assignRow a now) (commands db))
  = Some (assignRow a now p).
Proof.
  intros Hnd Hin Hnone. unfold updateWhere. rewrite find_map.
  rewrite (find_agree _ (hasId (row_id p))).
  - rewrite find_by_id by done. simpl. rewrite (proj2 (hasId_spec _ _)); done.
  - intros r Hr. destruct (hasId (row_id p) r) eqn:E.
    + apply runningFor_spec. done.
    + by apply (find_None_elem _ _ _ Hnone).
Qed.

End Fetch.

(** C2.  In a table with unique ids: when the agent owns a RUNNING row,
    [fetchNextCommand] returns such a row as it is stored and the store is
    not modified; and in every case a second call for the same agent, made
    on the store the first call left, returns the same Command record and
    leaves that store as it is. *)
Theorem fetchNextCommand_idempotent (a : string) (now hbNow now' hbNow' : Z)
    (db : Db) :
  uniqueIds db ->
  (forall r, r ∈ commands db -> agent_id r = Some a -> row_status r = RUNNING ->
     exists r', r' ∈ commands db /\ agent_id r' = Some a
                /\ row_status r' = RUNNING
                /\ fetchNextCommand a now hbNow db = (Some (rowToCommand r'), db))
  /\ fetchNextCommand a now' hbNow' (fetchNextCommand a now hbNow db).2
     = fetchNextCommand a now hbNow db.
Proof.
  intros Hnd. split.
  - intros r Hin Hag Hst.
    destruct (find_is_Some (runningFor a) (commands db) r Hin) as [r' Hr'].
    { by apply runningFor_spec. }
    exists r'. unfold fetchNextCommand. rewrite Hr'.
    apply find_Some_elem in Hr' as [Hin' Hrun].
    apply runningFor_spec in Hrun. tauto.
  - unfold fetchNextCommand at 2 3.
    destruct (find (runningFor a) (commands db)) as [e|] eqn:Hfind.
    + simpl. unfold fetchNextCommand. by rewrite Hfind.
    + destruct (orderByCreatedAtLimit1 _) as [p|] eqn:Hsel.
      * simpl. apply selected_pending in Hsel as [Hp _].
        unfold fetchNextCommand. simpl.
        rewrite (find_assigned a now db p Hnd Hp Hfind). reflexivity.
      * simpl. unfold fetchNextCommand. by rewrite Hfind, Hsel.
Qed.

Lemma fetchNextCommand_idempotent_witness :
  fetchNextCommand "b" 30 31 (fetchNextCommand "b" 20 21 exampleDb).2
  = fetchNextCommand "b" 20 21 exampleDb.
Proof.
  apply (fetchNextCommand_idempotent "b" 20 21 30 31 exampleDb).
  unfold uniqueIds. apply (bool_decide_unpack _). vm_compute. exact I.
Defined.

(** *** C5: which PENDING command is assigned *)

Section Fifo.

Implicit Types (r p q : CommandRow) (rows : list CommandRow).

Lemma orderByCreatedAtLimit1_None rows :
  orderByCreatedAtLimit1 rows = None -> rows = [].
Proof.
  destruct rows as [|r rows]; [done|]. simpl.
  destruct (orderByCreatedAtLimit1 rows); [|done]. by destruct (_ <? _).
Qed.

(** The selected row splits the table: the PENDING rows before it are
    strictly younger, the PENDING rows after it are not older. *)
Lemma selected_oldest rows p :
  orderByCreatedAtLimit1 (filter (fun r => isPending r = true) rows) = Some p ->
  exists pre post,
    rows = pre ++ p :: post /\
    (forall q, q ∈ pre -> row_status q = PENDING -> created_at p < created_at q) /\
    (forall q, q ∈ post -> row_status q = PENDING -> created_at p <= created_at q).
Proof.
  revert p. induction rows as [|r rows IH]; intros p; [done|].
  rewrite filter_cons. destruct (decide (isPending r = true)) as [Hr|Hr].
  - simpl.
    destruct (orderByCreatedAtLimit1 (filter _ rows)) as [b|] eqn:Hb.
    + destruct (IH b eq_refl) as (pre & post & -> & Hpre & Hpost).
      destruct (created_at b <? created_at r) eqn:Hlt; intros [= <-].
      * apply Z.ltb_lt in Hlt. exists (r :: pre), post.
        split; [done|]. split; [|done].
        intros q Hq Hst. apply elem_of_cons in Hq as [->|Hq]; auto.
      * apply Z.ltb_ge in Hlt. exists [], (pre ++ b :: post).
        split; [done|]. split; [intros q Hq; by apply elem_of_nil in Hq|].
        intros q Hq Hst. apply elem_of_app in Hq as [Hq|Hq].
        -- specialize (Hpre q Hq Hst). lia.
        -- apply elem_of_cons in Hq as [->|Hq]; [done|].
           specialize (Hpost q Hq Hst). lia.
    + intros [= <-]. apply orderByCreatedAtLimit1_None in Hb.
      exists [], rows. split; [done|].
      split; [intros q Hq; by apply elem_of_nil in Hq|].
      intros q Hq Hst. exfalso.
      assert (Hf : q ∈ filter (fun r => isPending r = true) rows).
      { apply list_elem_of_filter. split; [|done].
        unfold isPending. by apply bool_decide_eq_true. }
      rewrite Hb in Hf. by apply elem_of_nil in Hf.
  - intros Hsel. destruct (IH p Hsel) as (pre & post & -> & Hpre & Hpost).
    exists (r :: pre), post. split; [done|]. split; [|done].
    intros q Hq Hst. apply elem_of_cons in Hq as [->|Hq]; auto.
    exfalso. apply Hr. unfold isPending. by apply bool_decide_eq_true.
Qed.

End Fifo.

(** C5 (amended).  When the agent holds no RUNNING command and a PENDING
    command exists, [fetchNextCommand] assigns and returns a PENDING row
    [p] with the least [created_at]; among PENDING rows with that same
    [created_at] it is the first in table (insertion) order: the PENDING
    rows before it are strictly younger, those after it are not older.
    The id plays no part in the choice. *)
Theorem fetchNextCommand_oldest_pending (a : string) (now hbNow : Z) (db : Db) :
  idle a db -> somePending db ->
  exists pre p post,
    commands db = pre ++ p :: post /\ row_status p = PENDING /\
    (forall q, q ∈ pre -> row_status q = PENDING -> created_at p < created_at q) /\
    (forall q, q ∈ post -> row_status q = PENDING -> created_at p <= created_at q) /\
    (fetchNextCommand a now hbNow db).1 = Some (rowToCommand (assignRow a now p)).
Proof.
  intros Hidle (r0 & Hin0 & Hst0).
  apply idle_iff_find in Hidle. unfold fetchNextCommand. rewrite Hidle.
  destruct (orderByCreatedAtLimit1 _) as [p|] eqn:Hsel.
  - destruct (selected_pending _ _ Hsel) as [_ Hst].
    destruct (selected_oldest _ _ Hsel) as (pre & post & Heq & Hpre & Hpost).
    exists pre, p, post. simpl. repeat split; done.
  - apply orderByCreatedAtLimit1_None in Hsel. exfalso.
    assert (Hf : r0 ∈ filter (fun r => isPending r = true) (commands db)).
    { apply list_elem_of_filter. split; [|done].
      unfold isPending. by apply bool_decide_eq_true. }
    rewrite Hsel in Hf. by apply elem_of_nil in Hf.
Qed.

Lemma fetchNextCommand_oldest_pending_witness :
  exists pre p post,
    commands exampleDb = pre ++ p :: post /\ row_status p = PENDING /\
    (forall q, q ∈ pre -> row_status q = PENDING -> created_at p < created_at q) /\
    (forall q, q ∈ post -> row_status q = PENDING -> created_at p <= created_at q) /\
    (fetchNextCommand "b" 20 21 exampleDb).1
    = Some (rowToCommand (assignRow "b" 20 p)).
Proof.
  apply (fetchNextCommand_oldest_pending "b" 20 21 exampleDb).
  - apply idle_iff_find. reflexivity.
  - exists (mkRow "c3" DELAY delay100 PENDING None None 3 3 None None).
    split; [|reflexivity]. unfold exampleDb, exampleRows; simpl.
    do 2 apply list_elem_of_further. apply list_elem_of_here.
Defined.

(** C5, as stated, fails on a tie: both commands carry [created_at = 5];
    the fetch returns [b], the row inserted first, not [a], the lesser id. *)
Lemma tie_not_broken_by_id : ~ selectsOldestTieById "agent" 10 11 tieDb.
Proof.
  unfold selectsOldestTieById. intros H.
  destruct H as (p & Hin & _ & Hmin & Hret).
  - apply idle_iff_find. reflexivity.
  - eexists. split; [apply list_elem_of_here | reflexivity].
  - unfold tieDb in Hin; simpl in Hin.
    apply elem_of_cons in Hin as [->|Hin].
    + specialize (Hmin (mkRow "a" DELAY delay100 PENDING None None 5 5 None None)).
      destruct Hmin as [Hlt|[_ [Heq|Hlt]]].
      * unfold tieDb; simpl. apply list_elem_of_further, list_elem_of_here.
      * reflexivity.
      * simpl in Hlt. lia.
      * discriminate Heq.
      * vm_compute in Hlt. discriminate Hlt.
    + apply elem_of_cons in Hin as [->|Hin];
        [vm_compute in Hret; discriminate Hret|].
      apply elem_of_cons in Hin as [->|Hin];
        [vm_compute in Hret; discriminate Hret|].
      by apply elem_of_nil in Hin.
Qed.

(** On that table the fetch takes the first row inserted. *)
Lemma tie_takes_first_inserted :
  id <$> (fetchNextCommand "agent" 10 11 tieDb).1 = Some "b".
Proof. reflexivity. Qed.

(** *** C6: the answer to a rejected report *)

Lemma truthy_Some s : s <> "" -> truthy (Some s) = true.
Proof.
  intros H. simpl. destruct (String.eqb_spec s ""); [contradiction|done].
Qed.

Lemma parseTerminalStatus_text st : parseTerminalStatus (statusText st) = Some st.
Proof. by destruct st. Qed.

(** C6 (amended).  For a report with agent id, command id and a terminal
    status on which [completeCommand] answers false, POST /agent/result
    answers 200 exactly when the command exists and its status is COMPLETED
    or FAILED, whichever state was requested and whoever its owner was;
    otherwise it answers 409; the store is not modified. *)
Theorem postResult_rejected_report (a c : string) (st : TerminalStatus)
    (res : Json) (e : option string) (now hbNow : Z) (db : Db) :
  a <> "" -> c <> "" ->
  (completeCommand c a st res e now hbNow db).1 = false ->
  ((postResult (report a c st res e) now hbNow db).1.1 = 200
     <-> exists cmd, getCommand c db = Some cmd /\ isTerminal (status cmd) = true)
  /\ ((postResult (report a c st res e) now hbNow db).1.1 = 200
      \/ (postResult (report a c st res e) now hbNow db).1.1 = 409)
  /\ (postResult (report a c st res e) now hbNow db).2 = db.
Proof.
  intros Ha Hc Hfalse.
  pose proof (proj2 (completeCommand_unchanged c a st res e now hbNow db) Hfalse)
    as Hdb.
  unfold postResult, report. cbn [req_agentId req_commandId req_status
                                  req_result req_error].
  rewrite (truthy_Some a Ha), (truthy_Some c Hc).
  rewrite (truthy_Some (statusText st)) by (by destruct st).
  cbn [negb orb]. rewrite parseTerminalStatus_text.
  cbv zeta. rewrite Hfalse, Hdb. cbn [negb].
  destruct (getCommand c db) as [cmd|] eqn:Hget.
  - destruct (isTerminal (status cmd)) eqn:Ht; cbn [fst snd].
    + split; [|split; [by left | done]].
      split; [|done]. intros _. by exists cmd.
    + split; [|split; [by right | done]].
      split; [discriminate|]. intros (cmd' & [= <-] & Ht'). congruence.
  - cbn [fst snd]. split; [|split; [by right | done]].
    split; [discriminate|]. by intros (cmd' & [=] & _).
Qed.

Lemma postResult_rejected_report_witness :
  (postResult (report "b" "c1" T_FAILED JNull (Some "boom")) 20 21 exampleDb).1.1
  = 200.
Proof.
  apply (postResult_rejected_report "b" "c1" T_FAILED JNull (Some "boom") 20 21
           exampleDb); [done | done | reflexivity |].
  eexists. split; reflexivity.
Defined.

(** C6, as stated, fails: [c1] was COMPLETED by agent [a]; agent [b] reports
    it FAILED; the handler answers 200 although neither the state nor the
    owner is the reported one. *)
Lemma foreign_report_acknowledged :
  ~ acknowledgesOnlyOwnReplay "b" "c1" T_FAILED JNull (Some "boom") 20 21
      exampleDb.
Proof.
  unfold acknowledgesOnlyOwnReplay. intros H.
  destruct H as [[Hack _] _]; [done | done | reflexivity |].
  destruct Hack as (r & Hin & Hid & Hst & Hag); [reflexivity|].
  unfold exampleDb, exampleRows in Hin; simpl in Hin.
  repeat (apply elem_of_cons in Hin as [->|Hin]; [discriminate|]).
  by apply elem_of_nil in Hin.
Qed.

(** *** C7: what the reclaimer resets *)

Section Reclaim.

Implicit Types (db : Db) (r : CommandRow) (rows : list CommandRow)
  (hbs : gmap string HeartbeatRow).

Lemma updateWhere_agree (c1 c2 : CommandRow -> bool) f rows :
  (forall r, r ∈ rows -> c1 r = c2 r) ->
  updateWhere c1 f rows = updateWhere c2 f rows.
Proof.
  intros H. unfold updateWhere. apply map_ext_in.
  intros r Hr. rewrite (H r); [done | by apply list_elem_of_In].
Qed.

Lemma updateWhere_never f rows : updateWhere (fun _ => false) f rows = rows.
Proof. unfold updateWhere. apply map_id. Qed.

Lemma isRunning_reset now r : isRunning (resetRow now r) = false.
Proof. done. Qed.

(** One more agent in the loop: the rows reset are those of the agents
    handled so far. *)
Lemma ownerIn_step now a agents r :
  (let r1 := if runningFor a r then resetRow now r else r in
   if ownerIn agents r1 then resetRow now r1 else r1)
  = if ownerIn (a :: agents) r then resetRow now r else r.
Proof.
  cbv zeta. destruct (runningFor a r) eqn:Hrun.
  - apply runningFor_spec in Hrun as [Hag Hst].
    unfold ownerIn at 1. rewrite isRunning_reset. simpl.
    unfold ownerIn, isRunning. rewrite Hag, Hst.
    rewrite bool_decide_eq_true_2 by done.
    rewrite bool_decide_eq_true_2 by apply list_elem_of_here. done.
  - assert (Heq : ownerIn (a :: agents) r = ownerIn agents r); [|by rewrite Heq].
    unfold ownerIn. destruct (isRunning r) eqn:Hr; [|done]. simpl.
    destruct (agent_id r) as [a'|] eqn:Hag; [|done].
    apply bool_decide_ext. rewrite elem_of_cons.
    split; [|tauto]. intros [->|H]; [|done].
    exfalso. unfold runningFor, ownedBy in Hrun.
    rewrite Hr, Hag, bool_decide_eq_true_2 in Hrun by done. discriminate.
Qed.

Lemma reclaim_loop_commands now agents acc :
  commands (foldl (reclaimAgent now) acc agents).2
  = updateWhere (ownerIn agents) (resetRow now) (commands acc.2).
Proof.
  revert acc. induction agents as [|a agents IH]; intros acc; simpl.
  - rewrite <- (updateWhere_never (resetRow now) (commands acc.2)) at 1.
    apply updateWhere_agree. intros r _. unfold ownerIn.
    destruct (agent_id r); [|by rewrite andb_false_r].
    rewrite bool_decide_eq_false_2; [by rewrite andb_false_r|].
    apply not_elem_of_nil.
  - rewrite IH. simpl. unfold updateWhere. rewrite map_map.
    apply map_ext. intros r. apply (ownerIn_step now a agents r).
Qed.

Lemma clearCurrent_twice hb : clearCurrent (clearCurrent hb) = clearCurrent hb.
Proof. done. Qed.

Lemma reclaim_loop_heartbeats now agents acc a :
  agent_heartbeats (foldl (reclaimAgent now) acc agents).2 !! a
  = if bool_decide (a ∈ agents)
    then clearCurrent <$> agent_heartbeats acc.2 !! a
    else agent_heartbeats acc.2 !! a.
Proof.
  revert acc. induction agents as [|a0 agents IH]; intros acc.
  - done.
  - cbn [foldl]. rewrite IH. simpl. rewrite lookup_alter.
    destruct (decide (a0 = a)) as [->|Hne].
    + rewrite (bool_decide_eq_true_2 (a ∈ a :: agents))
        by apply list_elem_of_here.
      destruct (bool_decide _); [|done].
      destruct (agent_heartbeats acc.2 !! a); done.
    + rewrite (bool_decide_ext (a ∈ a0 :: agents) (a ∈ agents)); [done|].
      rewrite elem_of_cons. split; [|tauto].
      intros [->|H]; [done | done].
Qed.

Lemma elem_of_staleAgentIds cutoff hbs a :
  a ∈ staleAgentIds cutoff hbs
  <-> exists hb, hbs !! a = Some hb /\ isStale cutoff hb = true.
Proof.
  unfold staleAgentIds. rewrite list_elem_of_fmap. split.
  - intros ([a' hb] & -> & Hin). apply elem_of_map_to_list in Hin.
    apply map_lookup_filter_Some in Hin as [Hl Hp]. by exists hb.
  - intros (hb & Hl & Hp). exists (a, hb). split; [done|].
    apply elem_of_map_to_list. by apply map_lookup_filter_Some.
Qed.

Lemma ownerIn_stale cutoff hbs r :
  ownerIn (staleAgentIds cutoff hbs) r = isStaleOwner cutoff hbs r.
Proof.
  unfold ownerIn, isStaleOwner. f_equal.
  destruct (agent_id r) as [a|]; [|done].
  destruct (hbs !! a) as [hb|] eqn:Hl.
  - destruct (isStale cutoff hb) eqn:Hs.
    + apply bool_decide_eq_true_2, elem_of_staleAgentIds. by exists hb.
    + apply bool_decide_eq_false_2. intros H.
      apply elem_of_staleAgentIds in H as (hb' & Hl' & Hs'). congruence.
  - apply bool_decide_eq_false_2. intros H.
    apply elem_of_staleAgentIds in H as (hb' & Hl' & _). congruence.
Qed.

(** The early return of [checkStaleCommands] is the empty loop. *)
Lemma checkStaleCommands_loop t dateNow now db :
  (checkStaleCommands t dateNow now db).2
  = (foldl (reclaimAgent now) (0%nat, db)
       (staleAgentIds (dateNow - t) (agent_heartbeats db))).2.
Proof.
  unfold checkStaleCommands.
  destruct (staleAgentIds _ _) as [|a agents]; done.
Qed.

Lemma checkStaleCommands_commands t dateNow now db :
  commands (checkStaleCommands t dateNow now db).2
  = updateWhere (isStaleOwner (dateNow - t) (agent_heartbeats db))
      (resetRow now) (commands db).
Proof.
  rewrite checkStaleCommands_loop, reclaim_loop_commands. simpl.
  apply updateWhere_agree. intros r _. apply ownerIn_stale.
Qed.

Lemma checkStaleCommands_heartbeats t dateNow now db a :
  agent_heartbeats (checkStaleCommands t dateNow now db).2 !! a
  = (fun hb => if isStale (dateNow - t) hb then clearCurrent hb else hb)
      <$> agent_heartbeats db !! a.
Proof.
  rewrite checkStaleCommands_loop, reclaim_loop_heartbeats. simpl.
  destruct (agent_heartbeats db !! a) as [hb|] eqn:Hl; simpl.
  - destruct (isStale (dateNow - t) hb) eqn:Hs.
    + rewrite bool_decide_eq_true_2; [done|].
      apply elem_of_staleAgentIds. by exists hb.
    + rewrite bool_decide_eq_false_2; [done|]. intros H.
      apply elem_of_staleAgentIds in H as (hb' & Hl' & Hs'). congruence.
  - by destruct (bool_decide _).
Qed.

End Reclaim.



(** *** C8: heartbeat correspondence *)

Section Correspondence.

Implicit Types (db : Db) (r : CommandRow) (rows : list CommandRow).

Lemma orNull_Some s : s <> "" -> orNull (Some s) = Some s.
Proof. intros H. unfold orNull. by rewrite truthy_Some. Qed.

Lemma nonEmptyIds_updateWhere cond f db hbs :
  (forall r, row_id (f r) = row_id r) ->
  nonEmptyIds db ->
  nonEmptyIds {| commands := updateWhere cond f (commands db);
                 agent_heartbeats := hbs |}.
Proof.
  intros Hf Hne r' Hin. simpl in Hin.
  apply updateWhere_elem in Hin as (r & Hin & ->).
  destruct (cond r); [rewrite Hf|]; by apply Hne.
Qed.

Lemma nonEmptyIds_runOp op db :
  nonEmptyIds db -> keepsCorrespondence op db -> nonEmptyIds (runOp op db).
Proof.
  intros Hne Hop. destruct op; simpl.
  - unfold createCommand. destruct (existsb _ _); [done|]. simpl.
    intros r Hin. simpl in Hin. apply elem_of_app in Hin as [Hin|Hin].
    + by apply Hne.
    + apply list_elem_of_singleton in Hin. by subst r.
  - unfold fetchNextCommand. destruct (find _ _); [done|].
    destruct (orderByCreatedAtLimit1 _); [|done]. simpl.
    unfold updateHeartbeat. simpl. by apply nonEmptyIds_updateWhere.
  - unfold completeCommand. destruct (find _ _); [|done]. simpl.
    unfold updateHeartbeat. simpl. by apply nonEmptyIds_updateWhere.
  - done.
  - intros r' Hin. rewrite checkStaleCommands_commands in Hin.
    apply updateWhere_elem in Hin as (r & Hin & ->).
    destruct (isStaleOwner _ _ r); simpl; by apply Hne.
  - unfold recoverFromCrash. destruct (_ <? _)%nat; [|done].
    by apply nonEmptyIds_updateWhere.
Qed.

Lemma correspondence_fetch a now hbNow db :
  nonEmptyIds db -> heartbeatCorrespondence db ->
  heartbeatCorrespondence (fetchNextCommand a now hbNow db).2.
Proof.
  intros Hne Hinv. unfold fetchNextCommand.
  destruct (find _ _) eqn:Hfind; [done|].
  destruct (orderByCreatedAtLimit1 _) as [p|] eqn:Hsel; [|done].
  apply selected_pending in Hsel as [Hp _]. simpl.
  intros r' a' Hin Hst Hag. simpl in Hin |- *.
  apply updateWhere_elem in Hin as (r & Hin & ->).
  destruct (hasId (row_id p) r) eqn:Hid.
  - apply hasId_spec in Hid. simpl in Hag. injection Hag as <-.
    rewrite lookup_insert_eq. eexists. split; [done|]. simpl.
    rewrite Hid. apply orNull_Some. by apply Hne.
  - assert (Hneq : a <> a').
    { intros <-. assert (runningFor a r = true) by (by apply runningFor_spec).
      rewrite (find_None_elem _ _ _ Hfind Hin) in H. discriminate. }
    rewrite lookup_insert_ne by done. by apply Hinv.
Qed.

Lemma statusOf_not_running st : statusOf st <> RUNNING.
Proof. by destruct st. Qed.

Lemma correspondence_complete c a st res e now hbNow db :
  heartbeatCorrespondence db ->
  heartbeatCorrespondence (completeCommand c a st res e now hbNow db).2.
Proof.
  intros Hinv. unfold completeCommand.
  destruct (find _ _) as [r0|] eqn:Hfind; [|done].
  apply find_Some_elem in Hfind as [Hin0 Hp0].
  apply andb_true_iff in Hp0 as [Hid0 Hrun0].
  apply hasId_spec in Hid0. apply runningFor_spec in Hrun0 as [Hag0 Hst0].
  destruct (Hinv r0 a Hin0 Hst0 Hag0) as (hb0 & Hl0 & Hc0).
  simpl. intros r' a' Hin Hst Hag. simpl in Hin |- *.
  apply updateWhere_elem in Hin as (r & Hin & ->).
  destruct (hasId c r && ownedBy a r) eqn:Hcond.
  - simpl in Hst. by apply statusOf_not_running in Hst.
  - destruct (Hinv r a' Hin Hst Hag) as (hb & Hl & Hc).
    destruct (decide (a = a')) as [<-|Hneq].
    + exfalso. assert (Hsame : row_id r = c) by congruence.
      unfold hasId, ownedBy in Hcond.
      rewrite !bool_decide_eq_true_2 in Hcond by done. discriminate.
    + rewrite lookup_insert_ne by done. by exists hb.
Qed.

Lemma correspondence_checkStale t dateNow now db :
  heartbeatCorrespondence db ->
  heartbeatCorrespondence (checkStaleCommands t dateNow now db).2.
Proof.
  intros Hinv r' a Hin Hst Hag.
  rewrite checkStaleCommands_commands in Hin.
  rewrite checkStaleCommands_heartbeats.
  apply updateWhere_elem in Hin as (r & Hin & ->).
  destruct (isStaleOwner _ _ r) eqn:Hso; [discriminate|].
  destruct (Hinv r a Hin Hst Hag) as (hb & Hl & Hc).
  rewrite Hl. simpl. exists hb. split; [|done].
  unfold isStaleOwner, isRunning in Hso.
  rewrite Hag, Hl, bool_decide_eq_true_2 in Hso by done.
  simpl in Hso. by rewrite Hso.
Qed.

Lemma correspondence_recover now db :
  heartbeatCorrespondence db ->
  heartbeatCorrespondence (recoverFromCrash now db).
Proof.
  intros Hinv. unfold recoverFromCrash. destruct (_ <? _)%nat; [|done].
  intros r' a Hin Hst Hag. simpl in Hin.
  apply updateWhere_elem in Hin as (r & Hin & ->).
  destruct (isRunning r) eqn:Hr; [discriminate|].
  unfold isRunning in Hr. by rewrite bool_decide_eq_true_2 in Hr.
Qed.

(** What the heartbeat endpoint does to the store. *)
Lemma postHeartbeat_runOp body now db :
  (postHeartbeat body now db).2 = db
  \/ exists a, hb_agentId body = Some a
       /\ (postHeartbeat body now db).2
          = runOp (OpUpdateHeartbeat a (hb_commandId body) now) db.
Proof.
  unfold postHeartbeat. destruct (hb_agentId body) as [a|]; [|by left].
  destruct (negb _); [by left|]. right. by exists a.
Qed.

End Correspondence.

(** Every admitted operation keeps the correspondence. *)
Lemma correspondence_kept (op : DbOp) (db : Db) :
  nonEmptyIds db -> heartbeatCorrespondence db -> keepsCorrespondence op db ->
  heartbeatCorrespondence (runOp op db).
Proof.
  intros Hne Hinv Hop.
  destruct op as [cid ty p now|a0 now hbNow|c a0 st res e now hbNow|a0 c now
                   |t dateNow now|now]; simpl.
  - unfold createCommand. destruct (existsb _ _); [done|]. simpl.
    intros r a Hin Hst Hag. simpl in Hin |- *.
    apply elem_of_app in Hin as [Hin|Hin]; [by apply Hinv|].
    apply list_elem_of_singleton in Hin. subst r. discriminate.
  - by apply correspondence_fetch.
  - by apply correspondence_complete.
  - intros r a Hin Hst Hag. simpl in Hin |- *.
    destruct (decide (a0 = a)) as [->|Hneq].
    + rewrite lookup_insert_eq. eexists. split; [done|]. simpl.
      rewrite (Hop r Hin Hst Hag). apply orNull_Some. by apply Hne.
    + rewrite lookup_insert_ne by done. by apply Hinv.
  - by apply correspondence_checkStale.
  - by apply correspondence_recover.
Qed.

Lemma orNull_eq_Some (c : option string) (s : string) :
  orNull c = Some s -> c = Some s.
Proof. unfold orNull. by destruct (truthy c). Qed.

(** A heartbeat after which the correspondence holds named the command
    its agent is running. *)
Lemma updateHeartbeat_names_running (a : string) (c : option string) (now : Z)
    (db : Db) :
  heartbeatCorrespondence (updateHeartbeat a c now db) ->
  keepsCorrespondence (OpUpdateHeartbeat a c now) db.
Proof.
  intros Hafter r Hin Hst Hag.
  destruct (Hafter r a Hin Hst Hag) as (hb & Hl & Hc).
  cbn [updateHeartbeat agent_heartbeats] in Hl.
  rewrite lookup_insert_eq in Hl. injection Hl as <-.
  cbn [current_command_id] in Hc. by apply orNull_eq_Some.
Qed.

(** C8 (amended).  On a store whose command ids are non-empty, heartbeat
    correspondence (the heartbeat row of the owner of a RUNNING command
    names that command) is kept by createCommand with a non-empty id,
    fetchNextCommand, completeCommand, checkStaleCommands and
    recoverFromCrash.  [updateHeartbeat], which stores whatever command id
    the request carries, keeps it if and only if that id is the id of
    the command the agent is running, or the agent runs none; and so does
    POST /agent/heartbeat for a request with an agent id. *)
Theorem correspondence_preserved (op : DbOp) (db : Db) :
  nonEmptyIds db -> heartbeatCorrespondence db ->
  (keepsCorrespondence op db ->
     nonEmptyIds (runOp op db) /\ heartbeatCorrespondence (runOp op db))
  /\ (forall a c now,
        heartbeatCorrespondence (updateHeartbeat a c now db)
        <-> (forall r, r ∈ commands db -> row_status r = RUNNING ->
                       agent_id r = Some a -> c = Some (row_id r)))
  /\ (forall body now a,
        hb_agentId body = Some a -> a <> "" ->
        (heartbeatCorrespondence (postHeartbeat body now db).2
         <-> (forall r, r ∈ commands db -> row_status r = RUNNING ->
                        agent_id r = Some a ->
                        hb_commandId body = Some (row_id r)))).
Proof.
  intros Hne Hinv.
  assert (Hiff : forall a c now,
    heartbeatCorrespondence (updateHeartbeat a c now db)
    <-> (forall r, r ∈ commands db -> row_status r = RUNNING ->
                   agent_id r = Some a -> c = Some (row_id r))).
  { intros a c now. split.
    - apply updateHeartbeat_names_running.
    - intros H. by apply (correspondence_kept (OpUpdateHeartbeat a c now) db). }
  split; [|split].
  - intros Hop. split; [by apply nonEmptyIds_runOp | by apply correspondence_kept].
  - exact Hiff.
  - intros body now a Hbody Ha. unfold postHeartbeat.
    rewrite Hbody, (truthy_Some a Ha). cbn [negb snd]. apply Hiff.
Qed.

Lemma runningDb_correspondence : heartbeatCorrespondence runningDb.
Proof.
  intros r a Hin Hst Hag. unfold runningDb in Hin; simpl in Hin.
  apply list_elem_of_singleton in Hin. subst r.
  simpl in Hag. injection Hag as <-.
  exists (mkHeartbeat 10 (Some "c2")). split; reflexivity.
Qed.

Lemma correspondence_preserved_witness :
  (nonEmptyIds (runOp (OpUpdateHeartbeat "a" (Some "c2") 12) runningDb)
   /\ heartbeatCorrespondence (runOp (OpUpdateHeartbeat "a" (Some "c2") 12) runningDb))
  /\ heartbeatCorrespondence
       (postHeartbeat {| hb_agentId := Some "a"; hb_commandId := Some "c2" |} 12
          runningDb).2.
Proof.
  assert (Hne : nonEmptyIds runningDb).
  { intros r Hin. unfold runningDb in Hin; simpl in Hin.
    apply list_elem_of_singleton in Hin. by subst r. }
  assert (Hnames : forall r, r ∈ commands runningDb -> row_status r = RUNNING ->
                     agent_id r = Some "a" -> Some "c2" = Some (row_id r)).
  { intros r Hin _ _. unfold runningDb in Hin; simpl in Hin.
    apply list_elem_of_singleton in Hin. by subst r. }
  destruct (correspondence_preserved (OpUpdateHeartbeat "a" (Some "c2") 12)
              runningDb Hne runningDb_correspondence) as (Hkept & _ & Hpost).
  split.
  - apply Hkept. exact Hnames.
  - apply (Hpost {| hb_agentId := Some "a"; hb_commandId := Some "c2" |} 12 "a");
      [reflexivity | discriminate | exact Hnames].
Defined.

(** C8, as stated, fails: agent [a] runs [c2] and its heartbeat row says so;
    a heartbeat without command id (the one the poll loop sends before it
    fetches) replaces the row by one with [current_command_id] NULL. *)
Lemma heartbeat_breaks_correspondence :
  ~ correspondence_preserved_by_postHeartbeat
      {| hb_agentId := Some "a"; hb_commandId := None |} 12 runningDb.
Proof.
  unfold correspondence_preserved_by_postHeartbeat. intros H.
  specialize (H runningDb_correspondence).
  destruct (H (mkRow "c2" DELAY delay100 RUNNING None (Some "a") 2 10 (Some 10) None)
              "a") as (hb & Hl & Hc); try done.
  - apply list_elem_of_here.
  - vm_compute in Hl. injection Hl as <-. discriminate Hc.
Qed.

(* ===================================================================== *)
(** ** Properties of the executor and of the agent                        *)
(* ===================================================================== *)

(** *** C9: a failed request is a completed command *)

Section ExecutorFacts.

Variable JSON_parse : Text -> option Json.

Lemma executeHttpGetJson_failure o msg :
  failureMessage o = Some msg ->
  executeHttpGetJson JSON_parse o = errorResult msg.
Proof.
  destruct o as [m|m|st ct [m|text]]; simpl; intros [= <-]; reflexivity.
Qed.

Lemma executeCommand_http env command ds :
  type command = HTTP_GET_JSON ->
  isHttpGetJsonPayload (payload command) = true ->
  executeCommand JSON_parse env command ds
  = Returned (HttpDone (executeHttpGetJson JSON_parse (fetched env))) ds.
Proof.
  intros Hty Hp. unfold executeCommand. by rewrite Hty, Hp.
Qed.

Lemma maybeSimulateCrash_off ds : maybeSimulateCrash false ds = Some ds.
Proof. done. Qed.

End ExecutorFacts.

(** C9.  For an HTTP_GET_JSON command (with a [url] payload), when the
    request fails in transport or is aborted at the 30 s deadline with
    message [msg]: the executor returns, without throwing,
    [{status: 0, body: null, truncated: false, bytesReturned: 0,
      error: msg}]; every report the agent then sends carries status
    COMPLETED and that result, never FAILED; and with crash simulation off
    the agent does send it. *)
Theorem http_failure_reported_completed (JSON_parse : Text -> option Json)
    (env : ExecEnv) (command : Command) (msg : string) :
  type command = HTTP_GET_JSON ->
  isHttpGetJsonPayload (payload command) = true ->
  fetched env = TransportFailure msg \/ fetched env = DeadlineExpired msg ->
  executeHttpGetJson JSON_parse (fetched env)
  = {| http_status := 0; http_body := BodyNull; truncated := false;
       bytesReturned := 0; http_error := Some msg |}
  /\ (forall ds, executeCommand JSON_parse env command ds
                 = Returned (HttpDone (errorResult msg)) ds)
  /\ (forall rep, executeAndReport JSON_parse env command = Some rep ->
        rep = {| rep_commandId := id command; rep_status := T_COMPLETED;
                 rep_result := Some (HttpDone (errorResult msg));
                 rep_error := None |})
  /\ (randomFailures env = false ->
      executeAndReport JSON_parse env command
      = Some {| rep_commandId := id command; rep_status := T_COMPLETED;
                rep_result := Some (HttpDone (errorResult msg));
                rep_error := None |}).
Proof.
  intros Hty Hp Hfail.
  assert (Hmsg : failureMessage (fetched env) = Some msg)
    by (destruct Hfail as [-> | ->]; reflexivity).
  pose proof (executeHttpGetJson_failure JSON_parse _ _ Hmsg) as Hres.
  assert (Hexec : forall ds, executeCommand JSON_parse env command ds
                             = Returned (HttpDone (errorResult msg)) ds).
  { intros ds. by rewrite executeCommand_http, Hres. }
  split; [exact Hres|]. split; [exact Hexec|]. split.
  - intros rep. unfold executeAndReport.
    destruct (maybeSimulateCrash _ (draws env)) as [ds|]; [|discriminate].
    rewrite Hexec.
    destruct (maybeSimulateCrash _ ds); [|discriminate].
    by intros [= <-].
  - intros Hoff. unfold executeAndReport.
    rewrite Hoff, maybeSimulateCrash_off, Hexec, maybeSimulateCrash_off.
    reflexivity.
Qed.

Lemma http_failure_reported_completed_witness :
  executeAndReport neverParses refusedEnv exampleHttpCommand
  = Some {| rep_commandId := "c9"; rep_status := T_COMPLETED;
            rep_result := Some (HttpDone (errorResult "connect ECONNREFUSED"));
            rep_error := None |}.
Proof.
  apply (http_failure_reported_completed neverParses refusedEnv
           exampleHttpCommand "connect ECONNREFUSED");
    [reflexivity | reflexivity | left; reflexivity | reflexivity].
Defined.

(** *** C10: the size and the truncation of a response body *)

Section Truncation.

Lemma byteLength_ascii (t : Text) :
  asciiText t -> byteLength t = Z.of_nat (length t).
Proof.
  induction 1 as [|u t Hu _ IH]; [done|].
  cbn [byteLength length]. rewrite (proj2 (Z.ltb_lt u 128)) by lia. lia.
Qed.

Lemma asciiText_take n (t : Text) : asciiText t -> asciiText (take n t).
Proof. apply Forall_take. Qed.

Lemma asciiText_marker : asciiText truncatedMarker.
Proof.
  unfold asciiText. apply (bool_decide_unpack _). vm_compute. exact I.
Qed.

(** On ASCII text the cut at MAX_BODY_SIZE code units is the cut at
    MAX_BODY_SIZE bytes. *)
Lemma ascii_cut (t : Text) :
  asciiText t -> MAX_BODY_SIZE < byteLength t ->
  byteLength (take (Z.to_nat MAX_BODY_SIZE) t) = MAX_BODY_SIZE.
Proof.
  intros Ha Hlen. rewrite byteLength_ascii in Hlen by done.
  rewrite byteLength_ascii by (by apply asciiText_take).
  rewrite length_take. unfold MAX_BODY_SIZE in *. lia.
Qed.

End Truncation.

(** C10 (amended).  For every response body the executor sets
    [bytesReturned] to the UTF-8 byte length of the full text.  When that
    exceeds MAX_BODY_SIZE it sets [truncated = true] and builds the body
    from the truncated text [p], a prefix of the text: the JSON value
    parsed from [p] when the content type contains application/json and
    [p] parses, otherwise [p] followed by the marker ["... [truncated]"].
    For a text of ASCII characters [p] is the prefix of byte length
    exactly MAX_BODY_SIZE. *)
Theorem http_body_truncation (JSON_parse : Text -> option Json) (st : Z)
    (ct : option string) (text : Text) :
  bytesReturned (executeHttpGetJson JSON_parse (Responded st ct (BodyArrived text)))
  = byteLength text
  /\ (MAX_BODY_SIZE < byteLength text ->
      truncated (executeHttpGetJson JSON_parse (Responded st ct (BodyArrived text)))
      = true
      /\ exists p, p = take (Z.to_nat MAX_BODY_SIZE) text
           /\ p `prefix_of` text
           /\ http_body (executeHttpGetJson JSON_parse
                           (Responded st ct (BodyArrived text)))
              = parseOr JSON_parse (default "" ct) p (p ++ truncatedMarker)
           /\ (asciiText text -> byteLength p = MAX_BODY_SIZE)).
Proof.
  cbn [executeHttpGetJson]. cbv zeta. split.
  - by destruct (MAX_BODY_SIZE <? byteLength text).
  - intros Hlen. rewrite (proj2 (Z.ltb_lt _ _) Hlen). cbn [truncated http_body].
    split; [done|].
    exists (take (Z.to_nat MAX_BODY_SIZE) text).
    split; [done|]. split; [apply prefix_take|]. split; [done|].
    intros Ha. by apply ascii_cut.
Qed.

Lemma oversizeText_ascii : asciiText oversizeText.
Proof. unfold oversizeText. apply Forall_replicate. lia. Qed.

Lemma oversizeText_length : byteLength oversizeText = 10241.
Proof.
  rewrite byteLength_ascii by apply oversizeText_ascii.
  unfold oversizeText. rewrite length_replicate. lia.
Qed.

Lemma http_body_truncation_witness :
  truncated (executeHttpGetJson neverParses
               (Responded 200 (Some "text/plain") (BodyArrived oversizeText)))
  = true
  /\ exists p, p = take (Z.to_nat MAX_BODY_SIZE) oversizeText
       /\ p `prefix_of` oversizeText
       /\ http_body (executeHttpGetJson neverParses
                       (Responded 200 (Some "text/plain") (BodyArrived oversizeText)))
          = parseOr neverParses "text/plain" p (p ++ truncatedMarker)
       /\ (asciiText oversizeText -> byteLength p = MAX_BODY_SIZE).
Proof.
  apply (http_body_truncation neverParses 200 (Some "text/plain") oversizeText).
  rewrite oversizeText_length. unfold MAX_BODY_SIZE. lia.
Defined.

(** C10, as stated, fails: for 10241 letters served as text/plain the body
    is the 10240-byte prefix followed by the marker, 10255 bytes, not the
    prefix itself. *)
Lemma body_is_not_the_prefix :
  ~ returnsBytePrefix neverParses 200 (Some "text/plain") oversizeText.
Proof.
  unfold returnsBytePrefix. intros [_ H].
  destruct H as [_ (p & Hb & _ & Hlen)].
  { rewrite oversizeText_length. unfold MAX_BODY_SIZE. lia. }
  cbn [executeHttpGetJson] in Hb. cbv zeta in Hb.
  rewrite oversizeText_length in Hb.
  change (MAX_BODY_SIZE <? 10241) with true in Hb.
  cbn [http_body] in Hb. unfold parseOr in Hb.
  change (includes (default "" (Some "text/plain")) "application/json")
    with false in Hb.
  cbv iota in Hb.
  assert (Hp : p = take (Z.to_nat MAX_BODY_SIZE) oversizeText ++ truncatedMarker)
    by congruence.
  clear Hb. subst p.
  rewrite byteLength_ascii in Hlen.
  - rewrite length_app, length_take in Hlen.
    unfold oversizeText in Hlen. rewrite length_replicate in Hlen.
    change (length truncatedMarker) with 15%nat in Hlen.
    unfold MAX_BODY_SIZE in Hlen. lia.
  - apply Forall_app. split; [|apply asciiText_marker].
    apply asciiText_take, oversizeText_ascii.
Qed.

(** The cut is made in UTF-16 code units while the size is measured in
    bytes: 4000 euro signs are 12000 bytes, more than MAX_BODY_SIZE, but
    fewer than MAX_BODY_SIZE code units, so the result is flagged
    [truncated] and its body is the whole text followed by the marker. *)
Lemma multibyte_text_is_not_cut :
  executeHttpGetJson neverParses
    (Responded 200 (Some "text/plain") (BodyArrived euroText))
  = {| http_status := 200;
       http_body := BodyText (euroText ++ truncatedMarker);
       truncated := true;
       bytesReturned := 12000;
       http_error := None |}.
Proof. vm_compute. reflexivity. Qed.

(* ===================================================================== *)
(** ** Further properties of the store                                    *)
(* ===================================================================== *)

Section RowSteps.

Implicit Types (db : Db) (r : CommandRow) (rows : list CommandRow).

Lemma fmap_same (g : CommandRow -> CommandRow) rows :
  (forall r, r ∈ rows -> g r = r) -> g <$> rows = rows.
Proof.
  intros H. induction rows as [|r rows IH]; [done|]. simpl.
  rewrite (H r) by apply list_elem_of_here. f_equal. apply IH.
  intros x Hx. apply H. by apply list_elem_of_further.
Qed.

Lemma isStaleOwner_running cutoff hbs r :
  isStaleOwner cutoff hbs r = true -> row_status r = RUNNING.
Proof.
  unfold isStaleOwner, isRunning. intros H.
  apply andb_true_iff in H as [H _]. by apply bool_decide_eq_true in H.
Qed.

(** What one operation does to the table: every row of the table moves by
    a [rowStep], in place, and [createCommand] appends one fresh row. *)
Lemma runOp_rows op db :
  uniqueIds db ->
  exists (g : CommandRow -> CommandRow) (extra : list CommandRow),
    commands (runOp op db) = (g <$> commands db) ++ extra
    /\ (forall r, r ∈ commands db -> rowStep db op r (g r))
    /\ (forall r, r ∈ extra -> freshRow r).
Proof.
  intros Hnd.
  assert (Hid : exists (g : CommandRow -> CommandRow) (extra : list CommandRow),
             commands db = (g <$> commands db) ++ extra
             /\ (forall r, r ∈ commands db -> rowStep db op r (g r))
             /\ (forall r, r ∈ extra -> freshRow r)).
  { exists (fun r => r), []. rewrite app_nil_r, list_fmap_id.
    split; [done|]. split; [intros; constructor|].
    intros r Hr. by apply elem_of_nil in Hr. }
  destruct op as [cid ty p now|a now hbNow|c a st res e now hbNow|a c now
                 |t dateNow now|now]; simpl.
  - unfold createCommand. destruct (existsb _ _); [exact Hid|]. simpl.
    eexists (fun r => r), [_]. rewrite list_fmap_id.
    split; [reflexivity|]. split; [intros; constructor|].
    intros r Hr. apply list_elem_of_singleton in Hr. subst r.
    by repeat split.
  - unfold fetchNextCommand.
    destruct (find _ _) eqn:Hexisting; [exact Hid|].
    destruct (orderByCreatedAtLimit1 _) as [p|] eqn:Hsel; [|exact Hid]. simpl.
    destruct (selected_pending _ _ Hsel) as [Hp Hst].
    exists (fun r => if hasId (row_id p) r then assignRow a now r else r), [].
    rewrite app_nil_r. split; [done|].
    split; [|intros r Hr; by apply elem_of_nil in Hr].
    intros r Hr. destruct (hasId (row_id p) r) eqn:E; [|constructor].
    apply hasId_spec in E.
    rewrite (uniqueIds_same_row db r p Hnd Hr Hp E).
    eapply StepAssigned; [reflexivity | by apply idle_iff_find | done | done].
  - unfold completeCommand.
    destruct (find _ _) as [r0|] eqn:Hfind; [|exact Hid]. simpl.
    apply find_Some_elem in Hfind as [Hin0 Hp0].
    apply andb_true_iff in Hp0 as [Hid0 Hrun0].
    apply hasId_spec in Hid0. apply runningFor_spec in Hrun0 as [Hag0 Hst0].
    exists (fun r => if hasId c r && ownedBy a r
                     then finishRow (statusOf st) (finalResult res e) now r
                     else r), [].
    rewrite app_nil_r. split; [done|].
    split; [|intros r Hr; by apply elem_of_nil in Hr].
    intros r Hr. destruct (hasId c r && ownedBy a r) eqn:E; [|constructor].
    apply andb_true_iff in E as [E _]. apply hasId_spec in E.
    assert (r = r0) as -> by (apply (uniqueIds_same_row db); congruence).
    by eapply StepFinished.
  - exact Hid.
  - rewrite checkStaleCommands_commands.
    exists (fun r => if isStaleOwner (dateNow - t) (agent_heartbeats db) r
                     then resetRow now r else r), [].
    rewrite app_nil_r. split; [done|].
    split; [|intros r Hr; by apply elem_of_nil in Hr].
    intros r Hr. destruct (isStaleOwner _ _ r) eqn:E; [|constructor].
    apply StepReset. by eapply isStaleOwner_running.
  - unfold recoverFromCrash. destruct (_ <? _)%nat; [|exact Hid]. simpl.
    exists (fun r => if isRunning r then resetRow now r else r), [].
    rewrite app_nil_r. split; [done|].
    split; [|intros r Hr; by apply elem_of_nil in Hr].
    intros r Hr. destruct (isRunning r) eqn:E; [|constructor].
    apply StepReset. unfold isRunning in E. by apply bool_decide_eq_true in E.
Qed.

(** The same, row by row. *)
Lemma runOp_row op db i r :
  uniqueIds db -> commands db !! i = Some r ->
  exists r', commands (runOp op db) !! i = Some r' /\ rowStep db op r r'.
Proof.
  intros Hnd Hi.
  destruct (runOp_rows op db Hnd) as (g & extra & Heq & Hstep & _).
  exists (g r). split.
  - rewrite Heq. apply lookup_app_l_Some. by rewrite list_lookup_fmap, Hi.
  - apply Hstep. apply list_elem_of_lookup. eauto.
Qed.

Lemma rowStep_identity db op r r' :
  rowStep db op r r' ->
  row_id r' = row_id r /\ row_type r' = row_type r
  /\ row_payload r' = row_payload r /\ created_at r' = created_at r.
Proof. by destruct 1. Qed.

Lemma rowStep_legal db op r r' :
  rowStep db op r r' -> legalTransition (row_status r) (row_status r') = true.
Proof.
  destruct 1 as [|a now hbNow _ _ _ Hst|now Hst|c a st res e now hbNow _ _ Hst _];
    simpl; rewrite ?Hst; try done.
  by destruct (row_status r).
Qed.

End RowSteps.

(** X1.  One operation moves every command along an edge of the state
    machine (PENDING to RUNNING; RUNNING to PENDING, COMPLETED or FAILED; or
    no move), keeps it at its place in the table, and never changes its
    id, type, payload or creation time. *)
Theorem command_transitions (op : DbOp) (db : Db) (i : nat) (r : CommandRow) :
  uniqueIds db -> commands db !! i = Some r ->
  exists r', commands (runOp op db) !! i = Some r'
    /\ legalTransition (row_status r) (row_status r') = true
    /\ row_id r' = row_id r /\ row_type r' = row_type r
    /\ row_payload r' = row_payload r /\ created_at r' = created_at r.
Proof.
  intros Hnd Hi. destruct (runOp_row op db i r Hnd Hi) as (r' & Hi' & Hstep).
  exists r'. split; [done|]. split; [by eapply rowStep_legal|].
  by eapply rowStep_identity.
Qed.

Lemma exampleDb_uniqueIds : uniqueIds exampleDb.
Proof. unfold uniqueIds. apply (bool_decide_unpack _). vm_compute. exact I. Qed.

Lemma command_transitions_witness :
  exists r', commands (runOp (OpFetchNextCommand "b" 20 21) exampleDb) !! 2%nat
             = Some r'
    /\ legalTransition PENDING (row_status r') = true
    /\ row_id r' = "c3" /\ row_type r' = DELAY
    /\ row_payload r' = delay100 /\ created_at r' = 3.
Proof.
  apply (command_transitions (OpFetchNextCommand "b" 20 21) exampleDb 2
           (mkRow "c3" DELAY delay100 PENDING None None 3 3 None None)).
  - exact exampleDb_uniqueIds.
  - reflexivity.
Defined.

(** X2.  Commands are never deleted: after any sequence of operations a
    command is still at its place in the table, with the id, type, payload
    and creation time it was created with. *)
Theorem command_identity_kept (ops : list DbOp) (db : Db) (i : nat)
    (r : CommandRow) :
  uniqueIds db -> commands db !! i = Some r ->
  exists r', commands (runOps ops db) !! i = Some r'
    /\ row_id r' = row_id r /\ row_type r' = row_type r
    /\ row_payload r' = row_payload r /\ created_at r' = created_at r.
Proof.
  revert db r. induction ops as [|op ops IH]; intros db r Hnd Hi; simpl.
  - by exists r.
  - destruct (runOp_row op db i r Hnd Hi) as (r1 & Hi1 & Hstep).
    apply rowStep_identity in Hstep as (E1 & E2 & E3 & E4).
    destruct (IH (runOp op db) r1 (uniqueIds_runOp op db Hnd) Hi1)
      as (r' & Hi' & F1 & F2 & F3 & F4).
    exists r'. repeat split; congruence.
Qed.

Lemma command_identity_kept_witness :
  exists r',
    commands (runOps [ OpFetchNextCommand "b" 20 21;
                       OpCompleteCommand "c3" "b" T_FAILED JNull (Some "boom") 30 31;
                       OpRecoverFromCrash 40 ] exampleDb) !! 2%nat = Some r'
    /\ row_id r' = "c3" /\ row_type r' = DELAY
    /\ row_payload r' = delay100 /\ created_at r' = 3.
Proof.
  apply (command_identity_kept _ exampleDb 2
           (mkRow "c3" DELAY delay100 PENDING None None 3 3 None None)).
  - exact exampleDb_uniqueIds.
  - reflexivity.
Defined.

Section SingleAssignment.

Implicit Types (db : Db) (r : CommandRow).

Lemma uniqueIds_same_index db i j r1 r2 :
  uniqueIds db -> commands db !! i = Some r1 -> commands db !! j = Some r2 ->
  row_id r1 = row_id r2 -> i = j.
Proof.
  unfold uniqueIds. intros Hnd Hi Hj Hid.
  eapply (NoDup_lookup _ i j (row_id r1) Hnd).
  - by rewrite list_lookup_fmap, Hi.
  - by rewrite list_lookup_fmap, Hj, Hid.
Qed.

(** A row that is RUNNING after a step was RUNNING for the same agent
    before, or is the row a fetch of that agent selected. *)
Lemma rowStep_running db op r r' a :
  rowStep db op r r' -> runningFor a r' = true ->
  (r' = r /\ runningFor a r = true)
  \/ (idle a db /\
      orderByCreatedAtLimit1 (filter (fun x => isPending x = true) (commands db))
      = Some r).
Proof.
  intros Hstep Hrun.
  destruct Hstep as [|a0 now hbNow _ Hidle Hsel _|now _
                    |c a0 st res e now hbNow _ _ _ _].
  - by left.
  - right. apply runningFor_spec in Hrun as [[= ->] _]. done.
  - apply runningFor_spec in Hrun as [_ Hst]. discriminate.
  - apply runningFor_spec in Hrun as [_ Hst]. simpl in Hst.
    by apply statusOf_not_running in Hst.
Qed.

Lemma freshRow_not_running a r : freshRow r -> runningFor a r = false.
Proof.
  intros (Hst & _). unfold runningFor, isRunning.
  rewrite Hst, (bool_decide_eq_false_2 (PENDING = RUNNING)) by discriminate.
  apply andb_false_r.
Qed.

(** A RUNNING row of the new table and the row it comes from. *)
Lemma running_origin op db g extra i r' a :
  commands (runOp op db) = (g <$> commands db) ++ extra ->
  (forall r, r ∈ extra -> freshRow r) ->
  commands (runOp op db) !! i = Some r' -> runningFor a r' = true ->
  exists r, commands db !! i = Some r /\ r' = g r.
Proof.
  intros Heq Hfresh Hi Hrun. rewrite Heq in Hi.
  apply lookup_app_Some in Hi as [Hi|[_ Hi]].
  - rewrite list_lookup_fmap in Hi.
    destruct (commands db !! i) as [r|]; [|discriminate].
    injection Hi as <-. by exists r.
  - assert (Hin : r' ∈ extra) by (apply list_elem_of_lookup; eauto).
    rewrite (freshRow_not_running a r' (Hfresh r' Hin)) in Hrun. discriminate.
Qed.

End SingleAssignment.

(** X3.  Single assignment: in a table with unique ids, if no agent has
    two RUNNING commands before an operation, none has after it. *)
Theorem singleAssignment_preserved (op : DbOp) (db : Db) :
  uniqueIds db -> singleAssignment db -> singleAssignment (runOp op db).
Proof.
  intros Hnd Hinv i j r1' r2' a Hi Hj Hrun1 Hrun2.
  destruct (runOp_rows op db Hnd) as (g & extra & Heq & Hstep & Hfresh).
  destruct (running_origin op db g extra i r1' a Heq Hfresh Hi Hrun1)
    as (r1 & Hi1 & ->).
  destruct (running_origin op db g extra j r2' a Heq Hfresh Hj Hrun2)
    as (r2 & Hj2 & ->).
  assert (Hin1 : r1 ∈ commands db) by (apply list_elem_of_lookup; eauto).
  assert (Hin2 : r2 ∈ commands db) by (apply list_elem_of_lookup; eauto).
  destruct (rowStep_running db op r1 (g r1) a (Hstep r1 Hin1) Hrun1)
    as [[_ Hr1]|[Hidle1 Hsel1]];
  destruct (rowStep_running db op r2 (g r2) a (Hstep r2 Hin2) Hrun2)
    as [[_ Hr2]|[Hidle2 Hsel2]].
  - by apply (Hinv i j r1 r2 a).
  - apply runningFor_spec in Hr1. destruct (Hidle2 r1 Hin1 Hr1).
  - apply runningFor_spec in Hr2. destruct (Hidle1 r2 Hin2 Hr2).
  - apply (uniqueIds_same_index db i j r1 r2); congruence.
Qed.

Lemma singleAssignment_preserved_witness :
  singleAssignment (runOp (OpFetchNextCommand "b" 20 21) exampleDb).
Proof.
  apply (singleAssignment_preserved (OpFetchNextCommand "b" 20 21) exampleDb).
  - exact exampleDb_uniqueIds.
  - intros i j r1 r2 a Hi Hj H1 H2.
    apply runningFor_spec in H1 as [_ H1]. apply runningFor_spec in H2 as [_ H2].
    destruct i as [|[|[|i]]]; simpl in Hi; try discriminate Hi;
      injection Hi as <-; try discriminate H1;
    destruct j as [|[|[|j]]]; simpl in Hj; try discriminate Hj;
      injection Hj as <-; try discriminate H2; reflexivity.
Defined.

(** X4.  Result gating: in a table with unique ids every operation keeps,
    for every row, that a row with a non-NULL [result] is COMPLETED or
    FAILED, and that [completed_at] is set exactly on the COMPLETED and
    FAILED rows. *)
Theorem resultGating_preserved (op : DbOp) (db : Db) :
  uniqueIds db ->
  Forall resultGating (commands db) ->
  Forall resultGating (commands (runOp op db)).
Proof.
  intros Hnd Hinv.
  destruct (runOp_rows op db Hnd) as (g & extra & -> & Hstep & Hfresh).
  apply Forall_app. split.
  - apply Forall_fmap, Forall_forall. intros r Hr. simpl.
    pose proof (proj1 (Forall_forall _ _) Hinv r Hr) as [Hres Hdone].
    assert (Hclean : isTerminal (row_status r) = false ->
                     row_result r = None /\ completed_at r = None).
    { intros Hnt. split.
      - destruct (row_result r) eqn:E; [|done].
        assert (is_Some (Some j)) as H by (by eexists).
        apply Hres in H. congruence.
      - destruct (completed_at r) eqn:E; [|done].
        assert (is_Some (Some z)) as H by (by eexists).
        apply Hdone in H. congruence. }
    unfold resultGating.
    destruct (Hstep r Hr) as [|a now hbNow _ _ _ Hst|now Hst
                             |c a st res e now hbNow _ _ Hst _]; simpl.
    + done.
    + destruct Hclean as [-> ->]; [by rewrite Hst|].
      split; [by intros [] | split; [by intros [] | done]].
    + destruct Hclean as [-> ->]; [by rewrite Hst|].
      split; [by intros [] | split; [by intros [] | done]].
    + destruct st; simpl; split; try done; split; try done; by eexists.
  - apply Forall_forall. intros r Hr.
    destruct (Hfresh r Hr) as (Hst & Hres & _ & _ & Hc).
    unfold resultGating. rewrite Hst, Hres, Hc. simpl.
    split; [by intros [] | split; [by intros [] | done]].
Qed.

Lemma resultGating_preserved_witness :
  Forall resultGating
    (commands (runOp (OpCompleteCommand "c2" "a" T_COMPLETED JNull None 20 21)
                 exampleDb)).
Proof.
  apply (resultGating_preserved
           (OpCompleteCommand "c2" "a" T_COMPLETED JNull None 20 21) exampleDb).
  - exact exampleDb_uniqueIds.
  - unfold exampleDb, exampleRows; simpl.
    repeat constructor; unfold resultGating; simpl;
      try done; try (by intros []); by eexists.
Defined.

(** *** Creating, fetching and completing *)

Section CreateFetchComplete.

Implicit Types (db : Db) (r : CommandRow) (rows : list CommandRow).

Lemma find_snoc (p : CommandRow -> bool) rows r :
  find p (rows ++ [r])
  = match find p rows with
    | Some x => Some x
    | None => if p r then Some r else None
    end.
Proof.
  induction rows as [|x rows IH]; simpl; [done|].
  destruct (p x); [done | exact IH].
Qed.

Lemma existsb_hasId cid rows :
  existsb (hasId cid) rows = true <-> exists r, r ∈ rows /\ row_id r = cid.
Proof.
  rewrite existsb_exists. split; intros (r & Hin & Hid); exists r.
  - split; [by apply list_elem_of_In | by apply hasId_spec].
  - split; [by apply list_elem_of_In | by apply hasId_spec].
Qed.

Lemma hasId_ne c c' r : row_id r = c -> c' <> c -> hasId c' r = false.
Proof. intros <- H. unfold hasId. by rewrite bool_decide_eq_false_2. Qed.

(** In a table with unique ids an UPDATE that matches only the id of the
    row at place [i] rewrites that row and no other. *)
Lemma updateWhere_single db cond f i r :
  uniqueIds db -> commands db !! i = Some r -> cond r = true ->
  (forall x, cond x = true -> row_id x = row_id r) ->
  updateWhere cond f (commands db) = <[i := f r]> (commands db).
Proof.
  intros Hnd Hi Hc Hid. apply list_eq. intros j.
  rewrite updateWhere_lookup.
  destruct (decide (i = j)) as [<-|Hne].
  - rewrite list_lookup_insert_eq by (by eapply lookup_lt_Some).
    by rewrite Hi; simpl; rewrite Hc.
  - rewrite list_lookup_insert_ne by done.
    destruct (commands db !! j) as [x|] eqn:Hj; [|done]. simpl.
    destruct (cond x) eqn:Hx; [|done]. exfalso. apply Hne.
    apply (uniqueIds_same_index db i j r x Hnd Hi Hj). symmetry. by apply Hid.
Qed.

(** The store a successful [completeCommand] leaves. *)
Lemma completeCommand_success c a st res e now hbNow db i r :
  uniqueIds db -> commands db !! i = Some r ->
  row_id r = c -> row_status r = RUNNING -> agent_id r = Some a ->
  completeCommand c a st res e now hbNow db
  = (true,
     {| commands := <[i := finishRow (statusOf st) (finalResult res e) now r]>
                      (commands db);
        agent_heartbeats :=
          <[a := {| last_heartbeat := hbNow; current_command_id := None |}]>
            (agent_heartbeats db) |}).
Proof.
  intros Hnd Hi Hid Hst Hag.
  assert (Hin : r ∈ commands db) by (apply list_elem_of_lookup; eauto).
  assert (Hcond : hasId c r && ownedBy a r = true).
  { unfold hasId, ownedBy. by rewrite !bool_decide_eq_true_2. }
  unfold completeCommand.
  destruct (find_is_Some (fun x => hasId c x && runningFor a x) (commands db) r Hin)
    as [x ->].
  { rewrite (proj2 (hasId_spec c r) Hid). simpl. by apply runningFor_spec. }
  rewrite (proj2 (Nat.ltb_lt _ _) (countWhere_pos _ _ r Hin Hcond)).
  unfold updateHeartbeat. simpl. f_equal. f_equal.
  apply (updateWhere_single db _ _ i r Hnd Hi Hcond).
  intros y Hy. apply andb_true_iff in Hy as [Hy _].
  apply hasId_spec in Hy. congruence.
Qed.

(** The command [createCommand] returns, and where it is then found. *)
Lemma createCommand_roundtrip cid ty p now db cmd db' :
  createCommand cid ty p now db = Some (cmd, db') ->
  cmd = {| id := cid; type := ty; payload := p; status := PENDING;
           result := JNull; agentId := None; createdAt := now;
           updatedAt := now; startedAt := None; completedAt := None |}
  /\ getCommand cid db = None
  /\ getCommand cid db' = Some cmd.
Proof.
  unfold createCommand.
  destruct (existsb (hasId cid) (commands db)) eqn:Hex; [discriminate|].
  intros [= <- <-].
  assert (Hnone : find (hasId cid) (commands db) = None).
  { destruct (find (hasId cid) (commands db)) as [x|] eqn:Hfind; [|done].
    apply find_Some_elem in Hfind as [Hin Hid]. apply hasId_spec in Hid.
    assert (existsb (hasId cid) (commands db) = true)
      by (apply existsb_hasId; eauto).
    congruence. }
  split; [done|]. unfold getCommand. simpl. rewrite find_snoc, Hnone.
  split; [done|]. unfold hasId at 1. simpl.
  by rewrite bool_decide_eq_true_2.
Qed.

(** What [getUnfinishedCommand] finds after a fetch is what the fetch
    returned. *)
Lemma getUnfinishedCommand_after_fetch a now hbNow db :
  uniqueIds db ->
  getUnfinishedCommand a (fetchNextCommand a now hbNow db).2
  = (fetchNextCommand a now hbNow db).1.
Proof.
  intros Hnd. unfold getUnfinishedCommand, fetchNextCommand.
  destruct (find (runningFor a) (commands db)) as [x|] eqn:Hfind.
  - simpl. by rewrite Hfind.
  - destruct (orderByCreatedAtLimit1 _) as [p|] eqn:Hsel; simpl.
    + apply selected_pending in Hsel as [Hp _].
      by rewrite (find_assigned a now db p Hnd Hp Hfind).
    + by rewrite Hfind.
Qed.

End CreateFetchComplete.

(** X5.  [createCommand] fails exactly when the id is already in the
    table.  When it succeeds, for a payload that JSON carries exactly
    ([ms], if present, a safe integer), [getCommand] of the new id returns
    the very Command that [createCommand] returned; and [getCommand] of
    any other id answers as before. *)
Theorem createCommand_getCommand (cid : string) (ty : CommandType)
    (p : CommandPayload) (now : Z) (db : Db) :
  (createCommand cid ty p now db = None
     <-> exists r, r ∈ commands db /\ row_id r = cid)
  /\ (forall cmd db', createCommand cid ty p now db = Some (cmd, db') ->
        (safePayload p = true -> getCommand cid db' = Some cmd)
        /\ forall c', c' <> cid -> getCommand c' db' = getCommand c' db).
Proof.
  unfold createCommand.
  destruct (existsb (hasId cid) (commands db)) eqn:Hex.
  - split; [|discriminate]. split; [|done]. intros _.
    by apply existsb_hasId.
  - split.
    { split; [discriminate|]. intros H. apply existsb_hasId in H. congruence. }
    intros cmd db' [= <- <-]. unfold getCommand. simpl. split.
    + intros _. rewrite find_snoc.
      destruct (find (hasId cid) (commands db)) as [x|] eqn:Hfind.
      * apply find_Some_elem in Hfind as [Hin Hid]. apply hasId_spec in Hid.
        assert (existsb (hasId cid) (commands db) = true)
          by (apply existsb_hasId; eauto).
        congruence.
      * simpl. unfold hasId at 1. simpl.
        by rewrite bool_decide_eq_true_2.
    + intros c' Hne. rewrite find_snoc.
      destruct (find (hasId c') (commands db)); [done|].
      by rewrite (hasId_ne cid c').
Qed.

Lemma createCommand_getCommand_witness :
  getCommand "c4"
    (runOp (OpCreateCommand "c4" DELAY {| ms := Some 1500; url := None |} 50)
       exampleDb)
  = Some {| id := "c4"; type := DELAY;
            payload := {| ms := Some 1500; url := None |};
            status := PENDING; result := JNull; agentId := None;
            createdAt := 50; updatedAt := 50; startedAt := None;
            completedAt := None |}.
Proof.
  eapply (createCommand_getCommand "c4" DELAY
            {| ms := Some 1500; url := None |} 50 exampleDb);
    reflexivity.
Defined.

(** X6.  Single-flight fetch: a command handed out by [fetchNextCommand] is
    RUNNING and owned by the agent that asked; the answer is null exactly
    when that agent owns no RUNNING command and no PENDING command
    exists, and then the store is not modified. *)
Theorem fetchNextCommand_outcome (a : string) (now hbNow : Z) (db : Db) :
  (forall cmd, (fetchNextCommand a now hbNow db).1 = Some cmd ->
     status cmd = RUNNING /\ agentId cmd = Some a)
  /\ ((fetchNextCommand a now hbNow db).1 = None
        <-> idle a db /\ ~ somePending db)
  /\ ((fetchNextCommand a now hbNow db).1 = None ->
      (fetchNextCommand a now hbNow db).2 = db).
Proof.
  unfold fetchNextCommand.
  destruct (find (runningFor a) (commands db)) as [x|] eqn:Hfind.
  - simpl. split; [|split; [|discriminate]].
    + intros cmd [= <-]. apply find_Some_elem in Hfind as [_ Hrun].
      apply runningFor_spec in Hrun as [Hag Hst]. done.
    + split; [discriminate|]. intros [Hidle _].
      apply idle_iff_find in Hidle. congruence.
  - destruct (orderByCreatedAtLimit1 _) as [p|] eqn:Hsel; simpl.
    + split; [by intros cmd [= <-]|]. split; [|discriminate].
      split; [discriminate|]. intros [_ Hno]. exfalso. apply Hno.
      apply selected_pending in Hsel as [Hin Hst]. by exists p.
    + split; [discriminate|]. split; [|done].
      split; [|done]. intros _. split; [by apply idle_iff_find|].
      intros (r & Hin & Hst). apply orderByCreatedAtLimit1_None in Hsel.
      assert (Hf : r ∈ filter (fun x => isPending x = true) (commands db)).
      { apply list_elem_of_filter. split; [|done].
        unfold isPending. by apply bool_decide_eq_true. }
      rewrite Hsel in Hf. by apply elem_of_nil in Hf.
Qed.

Lemma fetchNextCommand_outcome_witness :
  status (rowToCommand (mkRow "c2" DELAY delay100 RUNNING None (Some "a") 2 10
                          (Some 10) None)) = RUNNING
  /\ agentId (rowToCommand (mkRow "c2" DELAY delay100 RUNNING None (Some "a") 2 10
                              (Some 10) None)) = Some "a".
Proof.
  apply (fetchNextCommand_outcome "a" 20 21 exampleDb). reflexivity.
Defined.

(** X7.  After POST /agent/fetch, POST /agent/sync for the same agent
    answers with the command the fetch answered with (null for null) and
    does not modify the store. *)
Theorem postSync_after_postFetch (a : string) (now hbNow : Z) (db : Db) :
  uniqueIds db -> a <> "" ->
  postSync {| ar_agentId := Some a |}
    (postFetch {| ar_agentId := Some a |} now hbNow db).2
  = postFetch {| ar_agentId := Some a |} now hbNow db.
Proof.
  intros Hnd Ha. unfold postSync, postFetch. cbn [ar_agentId].
  rewrite (truthy_Some a Ha). cbn [negb].
  change (default "" (Some a)) with a. cbv zeta. cbn [fst snd].
  rewrite (getUnfinishedCommand_after_fetch a now hbNow db Hnd).
  reflexivity.
Qed.

Lemma postSync_after_postFetch_witness :
  postSync {| ar_agentId := Some "b" |}
    (postFetch {| ar_agentId := Some "b" |} 20 21 exampleDb).2
  = postFetch {| ar_agentId := Some "b" |} 20 21 exampleDb.
Proof.
  apply (postSync_after_postFetch "b" 20 21 exampleDb).
  - exact exampleDb_uniqueIds.
  - discriminate.
Defined.

(** X8.  A successful [completeCommand] (the row with the given id is
    RUNNING and owned by the agent, ids unique), called with a result
    that is null or a JSON object, returns true and changes exactly that
    row: status as reported, result the reported one with the error, if
    any, merged in as its [error] property, [completed_at] and
    [updated_at] the current time, owner and start time kept; and it
    replaces the agent's heartbeat row by one without current command. *)
Theorem completeCommand_effect (c a : string) (st : TerminalStatus)
    (res : Json) (e : option string) (now hbNow : Z) (db : Db) (i : nat)
    (r : CommandRow) :
  uniqueIds db -> commands db !! i = Some r ->
  row_id r = c -> row_status r = RUNNING -> agent_id r = Some a ->
  typedResult res = true ->
  completeCommand c a st res e now hbNow db
  = (true,
     {| commands :=
          <[i := {| row_id := row_id r; row_type := row_type r;
                    row_payload := row_payload r; row_status := statusOf st;
                    row_result := Some (finalResult res e);
                    agent_id := Some a; created_at := created_at r;
                    updated_at := now; started_at := started_at r;
                    completed_at := Some now |}]> (commands db);
        agent_heartbeats :=
          <[a := {| last_heartbeat := hbNow; current_command_id := None |}]>
            (agent_heartbeats db) |}).
Proof.
  intros Hnd Hi Hid Hst Hag _.
  rewrite (completeCommand_success c a st res e now hbNow db i r) by done.
  unfold finishRow. by rewrite Hag.
Qed.

Lemma completeCommand_effect_witness :
  completeCommand "c2" "a" T_COMPLETED
    (JObj (FCons "ok" (JBool true) (FCons "tookMs" (JNum 1502) FNil))) None 20 21
    exampleDb
  = (true,
     {| commands :=
          <[1%nat := mkRow "c2" DELAY delay100 COMPLETED
                       (Some (JObj (FCons "ok" (JBool true)
                                      (FCons "tookMs" (JNum 1502) FNil))))
                       (Some "a") 2 20 (Some 10) (Some 20)]> (commands exampleDb);
        agent_heartbeats :=
          <["a" := {| last_heartbeat := 21; current_command_id := None |}]>
            (agent_heartbeats exampleDb) |}).
Proof.
  apply (completeCommand_effect "c2" "a" T_COMPLETED
           (JObj (FCons "ok" (JBool true) (FCons "tookMs" (JNum 1502) FNil)))
           None 20 21 exampleDb 1
           (mkRow "c2" DELAY delay100 RUNNING None (Some "a") 2 10 (Some 10) None));
    [exact exampleDb_uniqueIds | reflexivity..].
Defined.

(** *** Replayed reports, recovery and reclamation *)

Section Replay.

Implicit Types (db : Db) (r : CommandRow).

Lemma uniqueIds_insert db i r r' hbs :
  uniqueIds db -> commands db !! i = Some r -> row_id r' = row_id r ->
  uniqueIds {| commands := <[i := r']> (commands db); agent_heartbeats := hbs |}.
Proof.
  unfold uniqueIds. intros Hnd Hi Hid. simpl.
  rewrite list_fmap_insert, Hid.
  rewrite list_insert_id; [done|]. by rewrite list_lookup_fmap, Hi.
Qed.

(** Who succeeded in completing a command owned it. *)
Lemma completeCommand_true_row c a st res e now hbNow db :
  (completeCommand c a st res e now hbNow db).1 = true ->
  exists i r, commands db !! i = Some r /\ row_id r = c
              /\ row_status r = RUNNING /\ agent_id r = Some a.
Proof.
  intros H. apply completeCommand_unchanged in H as [r Hfind].
  apply find_Some_elem in Hfind as [Hin Hp].
  apply andb_true_iff in Hp as [Hid Hrun].
  apply hasId_spec in Hid. apply runningFor_spec in Hrun as [Hag Hst].
  apply list_elem_of_lookup in Hin as [i Hi]. by exists i, r.
Qed.

(** A report on a command that is already terminal. *)
Lemma postResult_on_terminal a c st res e now hbNow db i r :
  uniqueIds db -> a <> "" -> c <> "" ->
  commands db !! i = Some r -> row_id r = c ->
  isTerminal (row_status r) = true ->
  postResult (report a c st res e) now hbNow db = ((200, alreadyCompleted), db).
Proof.
  intros Hnd Ha Hc Hi Hid Ht.
  assert (Hin : r ∈ commands db) by (apply list_elem_of_lookup; eauto).
  assert (Hfalse : (completeCommand c a st res e now hbNow db).1 = false).
  { destruct (completeCommand c a st res e now hbNow db).1 eqn:E; [|done].
    apply completeCommand_true_row in E as (j & x & Hj & Hxid & Hxst & _).
    assert (Hxin : x ∈ commands db) by (apply list_elem_of_lookup; eauto).
    assert (x = r) as -> by (apply (uniqueIds_same_row db); congruence).
    rewrite Hxst in Ht. discriminate. }
  pose proof (proj2 (completeCommand_unchanged c a st res e now hbNow db) Hfalse)
    as Hdb.
  unfold postResult, report. cbn [req_agentId req_commandId req_status
                                  req_result req_error].
  rewrite (truthy_Some a Ha), (truthy_Some c Hc).
  rewrite (truthy_Some (statusText st)) by (by destruct st).
  cbn [negb orb]. rewrite parseTerminalStatus_text.
  cbv zeta. rewrite Hfalse, Hdb. cbn [negb].
  unfold getCommand. rewrite <- Hid, (find_by_id db r Hnd Hin). simpl.
  by rewrite Ht.
Qed.

End Replay.

(** X9.  Idempotent completion: once a report was accepted (200 without
    message), any later report for the same command, by the same agent
    with the same or another content, is answered 200 with the message
    [Command already completed (idempotent)] and leaves the store,
    the first result and [completed_at] included, as it is. *)
Theorem postResult_replay (a c : string) (st st' : TerminalStatus)
    (res res' : Json) (e e' : option string) (now hbNow now' hbNow' : Z)
    (db : Db) :
  uniqueIds db -> a <> "" -> c <> "" ->
  (postResult (report a c st res e) now hbNow db).1 = (200, Acknowledged None) ->
  postResult (report a c st' res' e') now' hbNow'
    (postResult (report a c st res e) now hbNow db).2
  = ((200, alreadyCompleted), (postResult (report a c st res e) now hbNow db).2).
Proof.
  intros Hnd Ha Hc Hfirst.
  assert (Htrue : (completeCommand c a st res e now hbNow db).1 = true).
  { revert Hfirst. unfold postResult, report.
    cbn [req_agentId req_commandId req_status req_result req_error].
    rewrite (truthy_Some a Ha), (truthy_Some c Hc).
    rewrite (truthy_Some (statusText st)) by (by destruct st).
    cbn [negb orb]. rewrite parseTerminalStatus_text. cbv zeta.
    destruct (completeCommand c a st res e now hbNow db).1; [done|].
    cbn [negb]. destruct (getCommand _ _) as [cmd|]; [|discriminate].
    destruct (isTerminal _); discriminate. }
  destruct (completeCommand_true_row _ _ _ _ _ _ _ _ Htrue)
    as (i & r & Hi & Hid & Hst & Hag).
  assert (Hdb : (postResult (report a c st res e) now hbNow db).2
                = (completeCommand c a st res e now hbNow db).2).
  { unfold postResult, report.
    cbn [req_agentId req_commandId req_status req_result req_error].
    rewrite (truthy_Some a Ha), (truthy_Some c Hc).
    rewrite (truthy_Some (statusText st)) by (by destruct st).
    cbn [negb orb]. rewrite parseTerminalStatus_text. cbv zeta.
    rewrite Htrue. reflexivity. }
  rewrite Hdb.
  rewrite (completeCommand_success c a st res e now hbNow db i r) by done.
  cbn [snd].
  apply (postResult_on_terminal a c st' res' e' now' hbNow' _ i
           (finishRow (statusOf st) (finalResult res e) now r)); try done.
  - by eapply uniqueIds_insert.
  - cbn [commands]. apply list_lookup_insert_eq. by eapply lookup_lt_Some.
  - by destruct st.
Qed.

Lemma postResult_replay_witness :
  postResult (report "a" "c2" T_COMPLETED JNull None) 30 31
    (postResult (report "a" "c2" T_COMPLETED JNull None) 20 21 exampleDb).2
  = ((200, alreadyCompleted),
     (postResult (report "a" "c2" T_COMPLETED JNull None) 20 21 exampleDb).2).
Proof.
  apply (postResult_replay "a" "c2" T_COMPLETED T_COMPLETED JNull JNull None None
           20 21 30 31 exampleDb);
    [exact exampleDb_uniqueIds | discriminate | discriminate | reflexivity].
Defined.

Section Recovery.

Implicit Types (db : Db) (r : CommandRow) (rows : list CommandRow).

Lemma recoverFromCrash_commands now db :
  commands (recoverFromCrash now db)
  = updateWhere isRunning (resetRow now) (commands db).
Proof.
  unfold recoverFromCrash.
  destruct (0 <? length _)%nat eqn:E; [done|]. simpl.
  apply Nat.ltb_ge in E.
  rewrite <- (updateWhere_never (resetRow now) (commands db)) at 1.
  apply updateWhere_agree. intros r Hr.
  destruct (isRunning r) eqn:Hrun; [|done]. exfalso.
  assert (Hf : r ∈ filter (fun x => isRunning x = true) (commands db))
    by (by apply list_elem_of_filter).
  destruct (filter _ (commands db)); [by apply elem_of_nil in Hf|].
  simpl in E. lia.
Qed.

Lemma recoverFromCrash_heartbeats now db :
  agent_heartbeats (recoverFromCrash now db) = agent_heartbeats db.
Proof. unfold recoverFromCrash. by destruct (0 <? length _)%nat. Qed.

Lemma noneRunning_recover now db : noneRunning (recoverFromCrash now db).
Proof.
  intros r' Hin. rewrite recoverFromCrash_commands in Hin.
  apply updateWhere_elem in Hin as (r & Hin & ->).
  destruct (isRunning r) eqn:E; [discriminate|].
  unfold isRunning in E. by apply bool_decide_eq_false in E.
Qed.

Lemma recoverFromCrash_noneRunning now db :
  noneRunning db -> recoverFromCrash now db = db.
Proof.
  intros Hnone. unfold recoverFromCrash.
  destruct (filter _ (commands db)) as [|r l] eqn:E; [done|]. exfalso.
  assert (Hf : r ∈ filter (fun x => isRunning x = true) (commands db))
    by (rewrite E; apply list_elem_of_here).
  apply list_elem_of_filter in Hf as [Hrun Hin].
  unfold isRunning in Hrun. apply bool_decide_eq_true in Hrun.
  by apply (Hnone r Hin).
Qed.

End Recovery.

(** X10.  Server start-up recovery: afterwards no command is RUNNING; a
    row that was RUNNING is PENDING without owner and start time, every
    other row and the whole heartbeat table are as before (heartbeat rows
    keep the command id they named); and a second recovery changes
    nothing. *)
Theorem recoverFromCrash_effect (now now' : Z) (db : Db) :
  noneRunning (recoverFromCrash now db)
  /\ (forall i r, commands db !! i = Some r ->
        commands (recoverFromCrash now db) !! i
        = Some (if bool_decide (row_status r = RUNNING)
                then resetRow now r else r))
  /\ agent_heartbeats (recoverFromCrash now db) = agent_heartbeats db
  /\ recoverFromCrash now' (recoverFromCrash now db) = recoverFromCrash now db.
Proof.
  split; [apply noneRunning_recover|]. split; [|split].
  - intros i r Hi. rewrite recoverFromCrash_commands, updateWhere_lookup, Hi.
    reflexivity.
  - apply recoverFromCrash_heartbeats.
  - apply recoverFromCrash_noneRunning, noneRunning_recover.
Qed.

Lemma recoverFromCrash_effect_witness :
  commands (recoverFromCrash 50 exampleDb) !! 1%nat
  = Some (mkRow "c2" DELAY delay100 PENDING None None 2 50 None None).
Proof.
  destruct (recoverFromCrash_effect 50 60 exampleDb) as (_ & Hrow & _).
  apply (Hrow 1%nat
           (mkRow "c2" DELAY delay100 RUNNING None (Some "a") 2 10 (Some 10) None)).
  reflexivity.
Defined.

Section ReclaimCount.

Implicit Types (db : Db) (r : CommandRow) (rows : list CommandRow)
  (hbs : gmap string HeartbeatRow).

Lemma countWhere_cons cond r rows :
  countWhere cond (r :: rows)
  = ((if cond r then 1 else 0) + countWhere cond rows)%nat.
Proof.
  unfold countWhere. rewrite filter_cons.
  destruct (decide (cond r = true)) as [H|H].
  - by rewrite H.
  - apply not_true_is_false in H. by rewrite H.
Qed.

Lemma countWhere_agree c1 c2 rows :
  (forall r, r ∈ rows -> c1 r = c2 r) -> countWhere c1 rows = countWhere c2 rows.
Proof.
  induction rows as [|r rows IH]; intros H; [done|].
  rewrite !countWhere_cons, (H r) by apply list_elem_of_here.
  f_equal. apply IH. intros x Hx. apply H. by apply list_elem_of_further.
Qed.

(** The rows of one more agent are counted once. *)
Lemma countWhere_ownerIn_cons now a agents rows :
  a ∉ agents ->
  (countWhere (runningFor a) rows
   + countWhere (ownerIn agents) (updateWhere (runningFor a) (resetRow now) rows))%nat
  = countWhere (ownerIn (a :: agents)) rows.
Proof.
  intros Hnot. induction rows as [|r rows IH]; [done|].
  unfold updateWhere in *. cbn [map]. rewrite !countWhere_cons, <- IH.
  destruct (runningFor a r) eqn:Hrun.
  - assert (ownerIn agents (resetRow now r) = false) as ->.
    { unfold ownerIn. by rewrite isRunning_reset. }
    assert (ownerIn (a :: agents) r = true) as ->; [|lia].
    apply runningFor_spec in Hrun as [Hag Hst].
    unfold ownerIn, isRunning. rewrite Hag, Hst.
    rewrite bool_decide_eq_true_2 by done.
    by rewrite bool_decide_eq_true_2 by apply list_elem_of_here.
  - assert (ownerIn (a :: agents) r = ownerIn agents r) as ->; [|lia].
    unfold ownerIn. destruct (isRunning r) eqn:Hr; [|done]. simpl.
    destruct (agent_id r) as [a'|] eqn:Hag; [|done].
    apply bool_decide_ext. rewrite elem_of_cons.
    split; [|tauto]. intros [->|H]; [|done].
    exfalso. unfold runningFor, ownedBy in Hrun.
    rewrite Hr, Hag, bool_decide_eq_true_2 in Hrun by done. discriminate.
Qed.

Lemma reclaim_loop_count now agents acc :
  NoDup agents ->
  (foldl (reclaimAgent now) acc agents).1
  = (acc.1 + countWhere (ownerIn agents) (commands acc.2))%nat.
Proof.
  intros Hnd. revert acc.
  induction Hnd as [|a agents Hnot Hnd IH]; intros acc.
  - simpl. rewrite (countWhere_agree (ownerIn []) (fun _ => false)).
    + unfold countWhere.
      assert (filter (fun r : CommandRow => false = true) (commands acc.2) = [])
        as ->; [|simpl; lia].
      induction (commands acc.2) as [|x l IHl]; [done|].
      rewrite filter_cons. by destruct (decide (false = true)).
    + intros r _. unfold ownerIn. destruct (agent_id r); [|apply andb_false_r].
      rewrite bool_decide_eq_false_2; [apply andb_false_r | apply not_elem_of_nil].
  - cbn [foldl]. rewrite IH. simpl.
    rewrite <- (countWhere_ownerIn_cons now a agents _ Hnot). lia.
Qed.

Lemma staleAgentIds_NoDup cutoff hbs : NoDup (staleAgentIds cutoff hbs).
Proof. unfold staleAgentIds. apply NoDup_fst_map_to_list. Qed.

Lemma checkStaleCommands_count t dateNow now db :
  (checkStaleCommands t dateNow now db).1
  = countWhere (isStaleOwner (dateNow - t) (agent_heartbeats db)) (commands db).
Proof.
  assert (H : (checkStaleCommands t dateNow now db).1
              = (foldl (reclaimAgent now) (0%nat, db)
                   (staleAgentIds (dateNow - t) (agent_heartbeats db))).1).
  { unfold checkStaleCommands. destruct (staleAgentIds _ _); done. }
  rewrite H, reclaim_loop_count by apply staleAgentIds_NoDup. simpl.
  apply countWhere_agree. intros r _. apply ownerIn_stale.
Qed.

(** After a pass no heartbeat row is selected by a cutoff that is not
    later. *)
Lemma staleAgentIds_after_pass t dateNow now cutoff' db :
  cutoff' <= dateNow - t ->
  staleAgentIds cutoff'
    (agent_heartbeats (checkStaleCommands t dateNow now db).2) = [].
Proof.
  intros Hle. apply elem_of_nil_inv. intros a Ha.
  apply elem_of_staleAgentIds in Ha as (hb' & Hl & Hs).
  rewrite checkStaleCommands_heartbeats in Hl.
  destruct (agent_heartbeats db !! a) as [hb|]; [|discriminate].
  simpl in Hl. injection Hl as <-.
  destruct (isStale (dateNow - t) hb) eqn:E.
  - unfold isStale, clearCurrent in Hs. simpl in Hs.
    by rewrite andb_false_r in Hs.
  - unfold isStale in *. apply andb_true_iff in Hs as [Hlt Hcur].
    rewrite Hcur, andb_true_r in E.
    apply bool_decide_eq_true in Hlt. apply bool_decide_eq_false in E. lia.
Qed.

End ReclaimCount.

(** X11.  The number [checkStaleCommands] returns is the number of
    commands it reset; and a second pass whose cutoff (now minus timeout)
    is not later than the first one's returns 0 and changes nothing. *)
Theorem checkStaleCommands_count_and_second_pass (t dateNow now t' dateNow' now' : Z)
    (db : Db) :
  (checkStaleCommands t dateNow now db).1
  = countWhere (isStaleOwner (dateNow - t) (agent_heartbeats db)) (commands db)
  /\ (dateNow' - t' <= dateNow - t ->
      checkStaleCommands t' dateNow' now' (checkStaleCommands t dateNow now db).2
      = (0%nat, (checkStaleCommands t dateNow now db).2)).
Proof.
  split; [apply checkStaleCommands_count|].
  intros Hle. unfold checkStaleCommands at 1.
  by rewrite (staleAgentIds_after_pass t dateNow now (dateNow' - t') db Hle).
Qed.

Lemma checkStaleCommands_count_and_second_pass_witness :
  checkStaleCommands 5 100 102 (checkStaleCommands 5 100 101 exampleDb).2
  = (0%nat, (checkStaleCommands 5 100 101 exampleDb).2).
Proof.
  apply (checkStaleCommands_count_and_second_pass 5 100 101 5 100 102 exampleDb).
  lia.
Defined.

(** X12.  A heartbeat keeps the agent's commands: after
    [updateHeartbeat] at time [hbTime], a reclamation pass whose cutoff
    (now minus timeout) is not later than [hbTime] leaves every command
    owned by that agent as it is. *)
Theorem heartbeat_protects (a : string) (c : option string)
    (hbTime t dateNow now : Z) (db : Db) (i : nat) (r : CommandRow) :
  dateNow - t <= hbTime ->
  commands db !! i = Some r -> agent_id r = Some a ->
  commands (checkStaleCommands t dateNow now (updateHeartbeat a c hbTime db)).2 !! i
  = Some r.
Proof.
  intros Hle Hi Hag.
  rewrite checkStaleCommands_commands. cbn [updateHeartbeat commands agent_heartbeats].
  apply updateWhere_keeps; [done|].
  unfold isStaleOwner. rewrite Hag, lookup_insert_eq.
  unfold isStale. cbn [last_heartbeat].
  rewrite (bool_decide_eq_false_2 (hbTime < dateNow - t)) by lia.
  apply andb_false_r.
Qed.

Lemma heartbeat_protects_witness :
  commands (checkStaleCommands 60000 100000 100001
              (updateHeartbeat "a" (Some "c2") 50000 exampleDb)).2 !! 1%nat
  = Some (mkRow "c2" DELAY delay100 RUNNING None (Some "a") 2 10 (Some 10) None).
Proof.
  apply (heartbeat_protects "a" (Some "c2") 50000 60000 100000 100001 exampleDb 1);
    [lia | reflexivity | reflexivity].
Defined.

(** *** The listing *)

Section Listing.

Implicit Types (r : CommandRow) (rows : list CommandRow).

Lemma insertByCreatedAt_perm r rows : insertByCreatedAt r rows ≡ₚ r :: rows.
Proof.
  induction rows as [|s rows IH]; simpl; [done|].
  destruct (created_at r <=? created_at s); [done|].
  rewrite IH. apply Permutation_swap.
Qed.

Lemma orderByCreatedAt_perm rows : orderByCreatedAt rows ≡ₚ rows.
Proof.
  induction rows as [|r rows IH]; simpl; [done|].
  by rewrite insertByCreatedAt_perm, IH.
Qed.

Lemma ascending_insert r rows :
  ascending (created_at <$> rows) ->
  ascending (created_at <$> insertByCreatedAt r rows).
Proof.
  induction rows as [|s rows IH]; simpl; [done|].
  intros [Hs Hrest].
  destruct (created_at r <=? created_at s) eqn:E; simpl.
  - apply Z.leb_le in E. split; [|done].
    apply Forall_cons. split; [done|].
    eapply Forall_impl; [exact Hs|]. simpl. intros; lia.
  - apply Z.leb_gt in E. split; [|by apply IH].
    rewrite (insertByCreatedAt_perm r rows). simpl.
    apply Forall_cons. split; [lia | done].
Qed.

Lemma ascending_orderByCreatedAt rows :
  ascending (created_at <$> orderByCreatedAt rows).
Proof.
  induction rows as [|r rows IH]; simpl; [done|]. by apply ascending_insert.
Qed.

(** A row not later than all rows of a list is inserted in front. *)
Lemma insertByCreatedAt_front r rows :
  Forall (fun x => created_at r <= created_at x) rows ->
  insertByCreatedAt r rows = r :: rows.
Proof.
  destruct rows as [|s rows]; [done|]. intros H.
  apply Forall_cons in H as [H _]. simpl.
  by rewrite (proj2 (Z.leb_le _ _) H).
Qed.

Lemma filter_insertByCreatedAt (P : CommandRow -> Prop)
    `{!forall x, Decision (P x)} r rows :
  ascending (created_at <$> rows) ->
  filter P (insertByCreatedAt r rows)
  = if decide (P r) then insertByCreatedAt r (filter P rows) else filter P rows.
Proof.
  induction rows as [|s rows IH]; intros Hasc.
  - simpl. rewrite filter_cons. by destruct (decide (P r)).
  - destruct Hasc as [Hs Hrest]. simpl.
    destruct (created_at r <=? created_at s) eqn:E.
    + apply Z.leb_le in E. rewrite !filter_cons.
      destruct (decide (P r)) as [Hr|Hr]; [|done].
      destruct (decide (P s)) as [Hps|Hps].
      * simpl. by rewrite (proj2 (Z.leb_le _ _) E).
      * symmetry. apply insertByCreatedAt_front.
        apply Forall_forall. intros x Hx.
        apply list_elem_of_filter in Hx as [_ Hx].
        pose proof (proj1 (Forall_forall _ _) Hs (created_at x)
                      (list_elem_of_fmap_2 created_at rows x Hx)) as Hle.
        simpl in Hle. lia.
    + rewrite !filter_cons, (IH Hrest).
      destruct (decide (P r)) as [Hr|Hr]; destruct (decide (P s)) as [Hps|Hps];
        try done.
      simpl. by rewrite E.
Qed.

Lemma filter_orderByCreatedAt (P : CommandRow -> Prop)
    `{!forall x, Decision (P x)} rows :
  filter P (orderByCreatedAt rows) = orderByCreatedAt (filter P rows).
Proof.
  induction rows as [|r rows IH]; [done|]. simpl.
  rewrite filter_insertByCreatedAt by apply ascending_orderByCreatedAt.
  rewrite filter_cons, IH. by destruct (decide (P r)).
Qed.

(** The first row of the sorted table is the row [LIMIT 1] returns. *)
Lemma head_orderByCreatedAt rows :
  head (orderByCreatedAt rows) = orderByCreatedAtLimit1 rows.
Proof.
  induction rows as [|r rows IH]; [done|]. simpl. rewrite <- IH.
  destruct (orderByCreatedAt rows) as [|b rest]; [done|]. simpl.
  destruct (created_at r <=? created_at b) eqn:E.
  - apply Z.leb_le in E. by rewrite (proj2 (Z.ltb_ge _ _) E).
  - apply Z.leb_gt in E. by rewrite (proj2 (Z.ltb_lt _ _) E).
Qed.

Lemma filter_rowToCommand rows :
  filter (fun c => status c = PENDING) (rowToCommand <$> rows)
  = rowToCommand <$> filter (fun r => isPending r = true) rows.
Proof.
  induction rows as [|r rows IH]; [done|].
  rewrite fmap_cons, !filter_cons, IH. simpl.
  unfold isPending.
  destruct (decide (row_status r = PENDING)) as [H|H].
  - rewrite (bool_decide_eq_true_2 _ H).
    by destruct (decide (true = true)).
  - rewrite (bool_decide_eq_false_2 _ H).
    by destruct (decide (false = true)).
Qed.

End Listing.

(** X13.  [getAllCommands] lists every command of the table exactly once,
    in ascending order of creation time. *)
Theorem getAllCommands_sorted (db : Db) :
  ascending (createdAt <$> getAllCommands db)
  /\ getAllCommands db ≡ₚ rowToCommand <$> commands db.
Proof.
  unfold getAllCommands. split.
  - rewrite <- list_fmap_compose.
    apply (ascending_orderByCreatedAt (commands db)).
  - by rewrite orderByCreatedAt_perm.
Qed.

(** X14.  FIFO against the listing: an agent that owns no RUNNING command
    is handed the first PENDING command of the listing [getAllCommands]
    (as assigned to it: RUNNING, owned, started now), and null when the
    listing has no PENDING command. *)
Theorem fetchNextCommand_first_listed (a : string) (now hbNow : Z) (db : Db) :
  idle a db ->
  (fetchNextCommand a now hbNow db).1
  = assigned a now
      <$> head (filter (fun c => status c = PENDING) (getAllCommands db)).
Proof.
  intros Hidle. apply idle_iff_find in Hidle.
  unfold fetchNextCommand, getAllCommands. rewrite Hidle.
  rewrite filter_rowToCommand, filter_orderByCreatedAt.
  rewrite <- head_orderByCreatedAt.
  destruct (orderByCreatedAt _) as [|p rest]; reflexivity.
Qed.

Lemma fetchNextCommand_first_listed_witness :
  (fetchNextCommand "agent" 10 11 tieDb).1
  = assigned "agent" 10
      <$> head (filter (fun c => status c = PENDING) (getAllCommands tieDb)).
Proof.
  apply (fetchNextCommand_first_listed "agent" 10 11 tieDb).
  apply idle_iff_find. reflexivity.
Defined.

(* ===================================================================== *)
(** ** Further properties of the routes                                   *)
(* ===================================================================== *)

Section Routes.

Variable validUrl : string -> bool.

Lemma validatePayload_None ty raw :
  validatePayload validUrl ty raw = None
  <-> exists p, raw = PayloadObject p /\ payloadOk validUrl ty p = true.
Proof.
  unfold validatePayload, payloadOk. split.
  - destruct raw as [| |p]; try discriminate. intros H. exists p. split; [done|].
    destruct ty.
    + destruct (ms p) as [n|]; [|discriminate].
      destruct (n <=? 0) eqn:E; [discriminate|].
      apply Z.leb_gt in E. by apply Z.ltb_lt.
    + destruct (url p) as [u|]; [|discriminate].
      by destruct (validUrl u).
  - intros (p & -> & Hok). destruct ty.
    + destruct (ms p) as [n|]; [|discriminate].
      apply Z.ltb_lt in Hok. by rewrite (proj2 (Z.leb_gt _ _) Hok).
    + destruct (url p) as [u|]; [|discriminate]. by rewrite Hok.
Qed.

Lemma payloadOk_fits ty p : payloadOk validUrl ty p = true -> payloadFits ty p = true.
Proof.
  unfold payloadOk, payloadFits, isDelayPayload, isHttpGetJsonPayload.
  destruct ty; [destruct (ms p) | destruct (url p)]; done.
Qed.

End Routes.

(** X15.  POST /commands answers 201 only if the type is DELAY or
    HTTP_GET_JSON, the payload is an object that passes the check of its
    type ([ms] a number above 0, or [url] a string that parses as a URL)
    and so fits the executor of that type, and the generated id is not
    in the table.  The command is then stored under that id with that
    type and, when JSON carries the payload exactly, that payload, and
    GET /commands/:id of the id answers 200 with status PENDING, result
    null and no agent.  On any other answer the store is not modified. *)
Theorem postCommand_outcome (validUrl : string -> bool)
    (body : CreateCommandRequest) (cid : string) (now : Z) (db : Db) :
  ((postCommand validUrl body cid now db).1.1 = 201 ->
     exists t p,
       cr_type body = Some t /\ isValidCommandType t = true
       /\ cr_payload body = PayloadObject p
       /\ payloadOk validUrl (asCommandType t) p = true
       /\ payloadFits (asCommandType t) p = true
       /\ (postCommand validUrl body cid now db).1.2 = CreatedBody cid
       /\ getCommand cid db = None
       /\ (exists cmd,
            getCommand cid (postCommand validUrl body cid now db).2 = Some cmd
            /\ id cmd = cid /\ type cmd = asCommandType t
            /\ createdAt cmd = now
            /\ (safePayload p = true -> payload cmd = p))
       /\ getCommandRoute cid (postCommand validUrl body cid now db).2
          = (200, Some {| gr_status := PENDING; gr_result := JNull;
                          gr_agentId := None |}))
  /\ ((postCommand validUrl body cid now db).1.1 <> 201 ->
      (postCommand validUrl body cid now db).2 = db
      /\ ((postCommand validUrl body cid now db).1.1 = 400
          \/ (postCommand validUrl body cid now db).1.1 = 500)).
Proof.
  unfold postCommand.
  destruct (cr_type body) as [t|] eqn:Ht; [|split; [discriminate | intros _; split; [done | by left]]].
  destruct (cr_payload body) as [| |p] eqn:Hraw;
    try (split; [discriminate | intros _; split; [done | by left]]).
  - destruct (negb (truthy (Some t)));
      [split; [discriminate | intros _; split; [done | by left]]|].
    destruct (negb (isValidCommandType t));
      [split; [discriminate | intros _; split; [done | by left]]|].
    destruct (validatePayload validUrl (asCommandType t) PayloadNotObject) eqn:Hv;
      [split; [discriminate | intros _; split; [done | by left]]|].
    apply validatePayload_None in Hv as (p & [=] & _).
  - destruct (negb (truthy (Some t)));
      [split; [discriminate | intros _; split; [done | by left]]|].
    destruct (isValidCommandType t) eqn:Hty; cbn [negb];
      [|split; [discriminate | intros _; split; [done | by left]]].
    destruct (validatePayload validUrl (asCommandType t) (PayloadObject p)) eqn:Hv;
      [split; [discriminate | intros _; split; [done | by left]]|].
    apply validatePayload_None in Hv as (p' & [= <-] & Hok).
    destruct (createCommand cid (asCommandType t) p now db) as [[cmd db']|] eqn:Hc;
      [|split; [discriminate | intros _; split; [done | by right]]].
    cbn [fst snd]. split; [|done]. intros _.
    destruct (createCommand_roundtrip cid (asCommandType t) p now db cmd db' Hc)
      as (Hcmd & Hfresh & Hget).
    exists t, p. repeat split; try done.
    + by eapply payloadOk_fits.
    + exists cmd. rewrite Hcmd in *. by repeat split.
    + unfold getCommandRoute. by rewrite Hget, Hcmd.
Qed.

Lemma postCommand_outcome_witness :
  exists t p,
    cr_type (mkCreateRequest (Some "DELAY") (PayloadObject delay100)) = Some t
    /\ isValidCommandType t = true
    /\ cr_payload (mkCreateRequest (Some "DELAY") (PayloadObject delay100))
       = PayloadObject p
    /\ payloadOk (fun _ => true) (asCommandType t) p = true
    /\ payloadFits (asCommandType t) p = true
    /\ (postCommand (fun _ => true)
          (mkCreateRequest (Some "DELAY") (PayloadObject delay100)) "c4" 50
          exampleDb).1.2 = CreatedBody "c4"
    /\ getCommand "c4" exampleDb = None
    /\ (exists cmd,
         getCommand "c4"
           (postCommand (fun _ => true)
              (mkCreateRequest (Some "DELAY") (PayloadObject delay100)) "c4" 50
              exampleDb).2 = Some cmd
         /\ id cmd = "c4" /\ type cmd = asCommandType t
         /\ createdAt cmd = 50
         /\ (safePayload p = true -> payload cmd = p))
    /\ getCommandRoute "c4"
         (postCommand (fun _ => true)
            (mkCreateRequest (Some "DELAY") (PayloadObject delay100)) "c4" 50
            exampleDb).2
       = (200, Some {| gr_status := PENDING; gr_result := JNull;
                       gr_agentId := None |}).
Proof.
  apply (postCommand_outcome (fun _ => true)
           (mkCreateRequest (Some "DELAY") (PayloadObject delay100)) "c4" 50
           exampleDb).
  reflexivity.
Defined.

(** X16.  POST /agent/result, for a body whose ids and status are
    strings or missing, modifies the store only when it accepts the
    report: unless the answer is 200 without message, the store is as
    before (a body with a field missing or empty, a status that is
    neither COMPLETED nor FAILED, a command the agent does not own or
    that is not RUNNING, an unknown command). *)
Theorem postResult_rejections (body : ReportResultRequest) (now hbNow : Z)
    (db : Db) :
  (postResult body now hbNow db).1 <> (200, Acknowledged None) ->
  (postResult body now hbNow db).2 = db.
Proof.
  unfold postResult.
  destruct (req_agentId body) as [a|]; [|done].
  destruct (req_commandId body) as [c|]; [|done].
  destruct (req_status body) as [s|]; [|done].
  destruct (_ || _); [done|].
  destruct (parseTerminalStatus s) as [st|]; [|done].
  cbv zeta.
  destruct (completeCommand c a st (req_result body) (req_error body) now hbNow db).1
    eqn:E; cbn [negb].
  - by intros [].
  - rewrite (proj2 (completeCommand_unchanged _ _ _ _ _ _ _ _) E).
    destruct (getCommand c db) as [cmd|];
      [destruct (isTerminal (status cmd))|]; done.
Qed.

Lemma postResult_rejections_witness :
  (postResult (mkReport (Some "b") (Some "c2") (Some "COMPLETED") JNull None)
     20 21 exampleDb).2 = exampleDb.
Proof.
  apply (postResult_rejections
           (mkReport (Some "b") (Some "c2") (Some "COMPLETED") JNull None)
           20 21 exampleDb).
  discriminate.
Defined.

(* ===================================================================== *)
(** ** Further properties of the agent                                    *)
(* ===================================================================== *)

Section AgentFacts.

Variable JSON_parse : Text -> option Json.

Lemma delayLoop_never_throws target elapsed rf clock ds m :
  delayLoop target elapsed rf clock ds <> Threw m.
Proof.
  revert elapsed ds. induction clock as [|t clock IH]; intros elapsed ds; simpl.
  - discriminate.
  - destruct (elapsed <? target); [|discriminate].
    destruct (maybeSimulateCrash rf ds); [apply IH | discriminate].
Qed.

Lemma executeCommand_fits env command ds m :
  payloadFits (type command) (payload command) = true ->
  executeCommand JSON_parse env command ds <> Threw m.
Proof.
  unfold payloadFits, executeCommand, isDelayPayload.
  destruct (type command).
  - destruct (ms (payload command)) as [n|]; [|discriminate]. intros _.
    unfold executeDelay.
    pose proof (delayLoop_never_throws n 0 (randomFailures env) (clock env) ds).
    destruct (delayLoop _ _ _ _ _); try discriminate. intros [= <-]. by eapply H.
  - intros ->. discriminate.
Qed.

Lemma executeCommand_misfit env command ds :
  payloadFits (type command) (payload command) = false ->
  executeCommand JSON_parse env command ds
  = Threw (invalidPayloadMessage (type command)).
Proof.
  unfold payloadFits, executeCommand, isDelayPayload, invalidPayloadMessage.
  destruct (type command).
  - by destruct (ms (payload command)).
  - by intros ->.
Qed.

End AgentFacts.

(** X17.  The agent reports FAILED from [executeAndReport] only for a
    payload that does not fit the command type.  If the payload fits (as
    for every command POST /commands stored), no execution throws and any
    report sent is COMPLETED with a result and no error, whatever the
    request or the clock did.  If it does not fit, the report (sent
    unless the crash test before execution exits) is FAILED with result
    null and the message [Invalid DELAY payload] or
    [Invalid HTTP_GET_JSON payload]. *)
Theorem executeAndReport_status (JSON_parse : Text -> option Json)
    (env : ExecEnv) (command : Command) :
  (payloadFits (type command) (payload command) = true ->
     forall rep, executeAndReport JSON_parse env command = Some rep ->
       rep_commandId rep = id command /\ rep_status rep = T_COMPLETED
       /\ is_Some (rep_result rep) /\ rep_error rep = None)
  /\ (payloadFits (type command) (payload command) = false ->
      (forall rep, executeAndReport JSON_parse env command = Some rep ->
         rep = {| rep_commandId := id command; rep_status := T_FAILED;
                  rep_result := None;
                  rep_error := Some (invalidPayloadMessage (type command)) |})
      /\ (randomFailures env = false ->
          is_Some (executeAndReport JSON_parse env command))).
Proof.
  split.
  - intros Hfit rep. unfold executeAndReport.
    destruct (maybeSimulateCrash _ (draws env)) as [ds|]; [|discriminate].
    pose proof (executeCommand_fits JSON_parse env command ds) as Hno.
    destruct (executeCommand JSON_parse env command ds) as [res ds'|m| |];
      try discriminate.
    + destruct (maybeSimulateCrash _ ds'); [|discriminate].
      intros [= <-]. simpl. repeat split; by eexists.
    + by destruct (Hno m Hfit).
  - intros Hmis. split.
    + intros rep. unfold executeAndReport.
      destruct (maybeSimulateCrash _ (draws env)) as [ds|]; [|discriminate].
      rewrite (executeCommand_misfit JSON_parse env command ds Hmis).
      by intros [= <-].
    + intros Hoff. unfold executeAndReport.
      rewrite Hoff, maybeSimulateCrash_off.
      rewrite (executeCommand_misfit JSON_parse env command _ Hmis). by eexists.
Qed.

Lemma executeAndReport_status_witness :
  rep_commandId (mkAgentReport "c9" T_COMPLETED
                   (Some (HttpDone (errorResult "connect ECONNREFUSED"))) None)
  = "c9"
  /\ rep_status (mkAgentReport "c9" T_COMPLETED
                   (Some (HttpDone (errorResult "connect ECONNREFUSED"))) None)
     = T_COMPLETED
  /\ is_Some (rep_result (mkAgentReport "c9" T_COMPLETED
                   (Some (HttpDone (errorResult "connect ECONNREFUSED"))) None))
  /\ rep_error (mkAgentReport "c9" T_COMPLETED
                   (Some (HttpDone (errorResult "connect ECONNREFUSED"))) None)
     = None.
Proof.
  apply (executeAndReport_status neverParses refusedEnv exampleHttpCommand);
    reflexivity.
Defined.

Section Delay.

Lemma delayLoop_took target elapsed rf clock ds r ds' :
  ascending clock -> Forall (Z.le elapsed) clock ->
  delayLoop target elapsed rf clock ds = Returned r ds' ->
  ok r = true /\ target <= tookMs r.
Proof.
  revert elapsed ds. induction clock as [|t clock IH]; intros elapsed ds; simpl.
  - discriminate.
  - intros [Ht Hasc] Hle. apply Forall_cons in Hle as [Hle _].
    destruct (elapsed <? target) eqn:E.
    + destruct (maybeSimulateCrash rf ds) as [ds1|]; [|discriminate].
      by apply IH.
    + apply Z.ltb_ge in E. intros [= <- _]. simpl. split; [done | lia].
Qed.

Lemma delayLoop_returns target elapsed clock ds :
  (target <= elapsed /\ clock <> [])
  \/ (exists k t, clock !! k = Some t /\ target <= t /\ is_Some (clock !! S k)) ->
  exists r, delayLoop target elapsed false clock ds = Returned r ds.
Proof.
  revert elapsed. induction clock as [|t0 clock IH]; intros elapsed H.
  - destruct H as [[_ H]|(k & t & H & _)]; [done | discriminate].
  - simpl. destruct (elapsed <? target) eqn:E; [|by eexists].
    apply Z.ltb_lt in E. apply IH.
    destruct H as [[H _]|(k & t & Hk & Ht & Hnext)]; [lia|].
    destruct k as [|k].
    + left. simpl in Hk. injection Hk as <-. split; [done|].
      simpl in Hnext. destruct clock; [by destruct Hnext | done].
    + right. by exists k, t.
Qed.

End Delay.

(** X18.  The DELAY executor, on a clock that does not run backwards: a
    result it returns has [ok = true] and [tookMs] at least the requested
    delay.  And it does return (with crash simulation off) as soon as the
    clock shows the delay elapsed and is read once more. *)
Theorem executeDelay_took (target : Z) (rf : bool) (clock : list Z)
    (ds : list bool) :
  (ascending clock -> Forall (Z.le 0) clock ->
   forall r ds', executeDelay target rf clock ds = Returned r ds' ->
     ok r = true /\ target <= tookMs r)
  /\ (rf = false ->
      (exists k t, clock !! k = Some t /\ target <= t /\ is_Some (clock !! S k)) ->
      exists r, executeDelay target rf clock ds = Returned r ds).
Proof.
  split.
  - intros Hasc Hpos r ds'. by apply delayLoop_took.
  - intros -> H. apply delayLoop_returns. by right.
Qed.

Lemma executeDelay_took_witness :
  exists r, executeDelay 1500 false [1001; 1502; 1503] [] = Returned r [].
Proof.
  apply (executeDelay_took 1500 false [1001; 1502; 1503] []); [reflexivity|].
  exists 1%nat, 1502. split; [reflexivity|]. split; [lia | by eexists].
Defined.

Section RetryFacts.

Context {R : Type}.
Variable attempt : nat -> string + R.

Lemma backoff_S delay k : backoff delay (S k) = delay :: backoff (delay * 2) k.
Proof.
  unfold backoff. cbn [seq fmap list_fmap]. f_equal; [simpl; lia|].
  rewrite <- fmap_S_seq, <- list_fmap_compose.
  apply list_fmap_ext. intros _ j _. simpl.
  rewrite Nat2Z.inj_succ, Z.pow_succ_r by lia. lia.
Qed.

(** The loop from iteration [i] on, when the first response comes at
    iteration [i + k]. *)
Lemma retryLoop_response retries k i delay response :
  (i + k < retries)%nat ->
  (forall j, (j < k)%nat -> exists e, attempt (i + j) = inl e) ->
  attempt (i + k) = inr response ->
  retryLoop attempt retries (retries - i) i delay
  = (inr response, backoff delay k).
Proof.
  revert i delay. induction k as [|k IH]; intros i delay Hlt Hfail Hok.
  - rewrite Nat.add_0_r in Hok.
    destruct (retries - i)%nat as [|fuel] eqn:E; [lia|].
    simpl. by rewrite Hok.
  - destruct (retries - i)%nat as [|fuel] eqn:E; [lia|].
    destruct (Hfail 0%nat) as [e He]; [lia|]. rewrite Nat.add_0_r in He.
    cbn [retryLoop]. rewrite He.
    rewrite (proj2 (Nat.eqb_neq i (retries - 1))) by lia.
    assert (fuel = (retries - S i)%nat) as -> by lia.
    rewrite (IH (S i) (delay * 2)).
    + by rewrite backoff_S.
    + lia.
    + intros j Hj. destruct (Hfail (S j)) as [e' He']; [lia|].
      exists e'. by rewrite <- He', Nat.add_succ_r.
    + by rewrite <- Hok, Nat.add_succ_r.
Qed.

(** The loop from iteration [i] on, when every call fails. *)
Lemma retryLoop_exhausted retries i delay e :
  (i < retries)%nat ->
  (forall j, (i <= j < retries)%nat -> exists e', attempt j = inl e') ->
  attempt (retries - 1) = inl e ->
  retryLoop attempt retries (retries - i) i delay
  = (inl e, backoff delay (retries - 1 - i)).
Proof.
  intros Hlt. remember (retries - 1 - i)%nat as k eqn:Hk.
  revert i delay Hlt Hk. induction k as [|k IH]; intros i delay Hlt Hk Hfail Hlast.
  - assert (i = (retries - 1)%nat) as Hi by lia.
    destruct (retries - i)%nat as [|fuel] eqn:E; [lia|].
    cbn [retryLoop]. rewrite Hi at 1. rewrite Hlast.
    by rewrite (proj2 (Nat.eqb_eq i (retries - 1)) Hi).
  - destruct (retries - i)%nat as [|fuel] eqn:E; [lia|].
    destruct (Hfail i) as [e' He']; [lia|].
    cbn [retryLoop]. rewrite He'.
    rewrite (proj2 (Nat.eqb_neq i (retries - 1))) by lia.
    assert (fuel = (retries - S i)%nat) as -> by lia.
    rewrite (IH (S i) (delay * 2)); [by rewrite backoff_S | lia | lia | | done].
    intros j Hj. apply Hfail. lia.
Qed.

End RetryFacts.

(** The loop looks at the outcomes of the calls it makes only. *)
Lemma retryLoop_calls {R : Type} (attempt attempt' : nat -> string + R)
    retries fuel i delay :
  (forall j, (i <= j < i + fuel)%nat -> attempt j = attempt' j) ->
  retryLoop attempt retries fuel i delay = retryLoop attempt' retries fuel i delay.
Proof.
  revert i delay. induction fuel as [|fuel IH]; intros i delay H; [done|].
  cbn [retryLoop]. rewrite <- (H i) by lia.
  destruct (attempt i); [|done].
  destruct (i =? retries - 1)%nat; [done|].
  rewrite (IH (S i) (delay * 2)); [done|]. intros j Hj. apply H. lia.
Qed.

(** X19.  [fetchWithRetry] resolves with the first response, having slept
    [delay], [2 delay], ... once per failure before it; after [retries]
    failures in a row it rejects with the error of the last call, having
    slept [retries - 1] times; with [retries = 0] it makes no call and
    rejects with [Unreachable]; and it never makes more than [retries]
    calls: its outcome depends on the first [retries] calls only. *)
Theorem fetchWithRetry_outcome {R : Type} (attempt : nat -> string + R)
    (retries : nat) (delay : Z) :
  (forall k response, (k < retries)%nat ->
     (forall j, (j < k)%nat -> exists e, attempt j = inl e) ->
     attempt k = inr response ->
     fetchWithRetry attempt retries delay = (inr response, backoff delay k))
  /\ (forall e, (0 < retries)%nat ->
        (forall j, (j < retries)%nat -> exists e', attempt j = inl e') ->
        attempt (retries - 1)%nat = inl e ->
        fetchWithRetry attempt retries delay
        = (inl e, backoff delay (retries - 1)%nat))
  /\ (retries = 0%nat ->
      fetchWithRetry attempt retries delay = (inl "Unreachable", []))
  /\ (forall attempt' : nat -> string + R,
        (forall j, (j < retries)%nat -> attempt j = attempt' j) ->
        fetchWithRetry attempt retries delay
        = fetchWithRetry attempt' retries delay).
Proof.
  unfold fetchWithRetry. split; [|split; [|split]];
    [| | |intros attempt' H; apply retryLoop_calls; intros j Hj; apply H; lia].
  - intros k response Hk Hfail Hok.
    rewrite <- (Nat.sub_0_r retries) at 2.
    by apply retryLoop_response.
  - intros e Hpos Hfail Hlast.
    rewrite <- (Nat.sub_0_r retries) at 2.
    rewrite <- (Nat.sub_0_r (retries - 1)).
    apply retryLoop_exhausted; [done | | done].
    intros j Hj. apply Hfail. lia.
  - by intros ->.
Qed.

Lemma fetchWithRetry_outcome_witness :
  fetchWithRetry
    (fun i => if (i <? 2)%nat then inl "ECONNRESET" else inr 200) 3 1000
  = (inr 200, backoff 1000 2).
Proof.
  apply (fetchWithRetry_outcome
           (fun i => if (i <? 2)%nat then inl "ECONNRESET" else inr 200) 3 1000).
  - lia.
  - intros j Hj. exists "ECONNRESET".
    by rewrite (proj2 (Nat.ltb_lt j 2) Hj).
  - reflexivity.
Defined.

Section CrashRecovery.

Implicit Types (db : Db) (r : CommandRow).

Lemma find_runningFor_single a db i r :
  singleAssignment db -> commands db !! i = Some r -> runningFor a r = true ->
  find (runningFor a) (commands db) = Some r.
Proof.
  intros Hsingle Hi Hrun.
  assert (Hin : r ∈ commands db) by (apply list_elem_of_lookup; eauto).
  destruct (find_is_Some (runningFor a) (commands db) r Hin Hrun) as [x Hx].
  rewrite Hx. apply find_Some_elem in Hx as [Hxin Hxrun].
  apply list_elem_of_lookup in Hxin as [j Hj].
  assert (j = i) as -> by (by apply (Hsingle j i x r a)).
  congruence.
Qed.

End CrashRecovery.

(** X20.  Agent start-up after a crash, requests delivered: if the agent
    still owns a RUNNING command, that command ends FAILED, with result
    [{error: "Agent crashed during execution - state unknown"}] and
    [completed_at] set; it is not put back to PENDING, and the agent's
    heartbeat row loses its current command; afterwards the agent owns no
    RUNNING command.  If it owns none, the store is not modified. *)
Theorem handleUnfinishedCommand_effect (a : string) (now hbNow : Z) (db : Db) :
  uniqueIds db -> nonEmptyIds db -> singleAssignment db -> a <> "" ->
  (forall i r, commands db !! i = Some r -> runningFor a r = true ->
     handleUnfinishedCommand a now hbNow db
     = {| commands :=
            <[i := finishRow FAILED
                     (JObj (FCons "error" (JStr crashReason) FNil)) now r]>
              (commands db);
          agent_heartbeats :=
            <[a := {| last_heartbeat := hbNow; current_command_id := None |}]>
              (agent_heartbeats db) |}
     /\ getUnfinishedCommand a (handleUnfinishedCommand a now hbNow db) = None)
  /\ (idle a db -> handleUnfinishedCommand a now hbNow db = db).
Proof.
  intros Hnd Hne Hsingle Ha. split.
  - intros i r Hi Hrun.
    assert (Hin : r ∈ commands db) by (apply list_elem_of_lookup; eauto).
    pose proof (find_runningFor_single a db i r Hsingle Hi Hrun) as Hfind.
    apply runningFor_spec in Hrun as [Hag Hst].
    assert (Hdb : handleUnfinishedCommand a now hbNow db
                  = (completeCommand (row_id r) a T_FAILED JNull (Some crashReason)
                       now hbNow db).2).
    { unfold handleUnfinishedCommand, postSync. cbn [ar_agentId].
      rewrite (truthy_Some a Ha). cbn [negb].
      change (default "" (Some a)) with a. cbn [fst].
      unfold getUnfinishedCommand. rewrite Hfind. cbn [fmap option_fmap option_map].
      change (id (rowToCommand r)) with (row_id r).
      unfold postResult, report.
      cbn [req_agentId req_commandId req_status req_result req_error].
      rewrite (truthy_Some a Ha), (truthy_Some (row_id r) (Hne r Hin)).
      cbn [negb orb truthy statusText]. cbv zeta.
      change (parseTerminalStatus "FAILED") with (Some T_FAILED). cbv iota beta.
      rewrite (completeCommand_success (row_id r) a T_FAILED JNull
                 (Some crashReason) now hbNow db i r) by done.
      reflexivity. }
    rewrite Hdb.
    rewrite (completeCommand_success (row_id r) a T_FAILED JNull
               (Some crashReason) now hbNow db i r) by done.
    cbn [snd]. split; [reflexivity|].
    unfold getUnfinishedCommand. cbn [commands]. clear Hfind Hdb.
    match goal with
    | |- _ <$> ?f = None => destruct f as [x|] eqn:Hx; [|done]
    end.
    exfalso.
    apply find_Some_elem in Hx as [Hxin Hxrun].
    apply list_elem_of_lookup in Hxin as [j Hj].
    destruct (decide (i = j)) as [<-|Hij].
    + rewrite list_lookup_insert_eq in Hj by (by eapply lookup_lt_Some).
      injection Hj as <-. apply runningFor_spec in Hxrun as [_ Hxst].
      discriminate.
    + rewrite list_lookup_insert_ne in Hj by done.
      apply Hij. apply (Hsingle i j r x a); try done.
      by apply runningFor_spec.
  - intros Hidle. apply idle_iff_find in Hidle.
    unfold handleUnfinishedCommand, postSync. cbn [ar_agentId].
    rewrite (truthy_Some a Ha). cbn [negb].
    change (default "" (Some a)) with a. cbn [fst].
    unfold getUnfinishedCommand. by rewrite Hidle.
Qed.

Lemma exampleDb_singleAssignment : singleAssignment exampleDb.
Proof.
  intros i j r1 r2 a Hi Hj H1 H2.
  apply runningFor_spec in H1 as [_ H1]. apply runningFor_spec in H2 as [_ H2].
  destruct i as [|[|[|i]]]; simpl in Hi; try discriminate Hi;
    injection Hi as <-; try discriminate H1;
  destruct j as [|[|[|j]]]; simpl in Hj; try discriminate Hj;
    injection Hj as <-; try discriminate H2; reflexivity.
Qed.

Lemma exampleDb_nonEmptyIds : nonEmptyIds exampleDb.
Proof.
  intros r Hin. unfold exampleDb, exampleRows in Hin; simpl in Hin.
  repeat (apply elem_of_cons in Hin as [->|Hin]; [discriminate|]).
  by apply elem_of_nil in Hin.
Qed.

Lemma handleUnfinishedCommand_effect_witness :
  getUnfinishedCommand "a" (handleUnfinishedCommand "a" 20 21 exampleDb) = None.
Proof.
  destruct (handleUnfinishedCommand_effect "a" 20 21 exampleDb) as [H _];
    [exact exampleDb_uniqueIds | exact exampleDb_nonEmptyIds
    | exact exampleDb_singleAssignment | discriminate |].
  apply (H 1%nat
           (mkRow "c2" DELAY delay100 RUNNING None (Some "a") 2 10 (Some 10) None));
    reflexivity.
Defined.

Section BodySize.

Lemma byteLength_bound_aux n (t : Text) :
  (length t <= n)%nat -> 0 <= byteLength t <= 3 * Z.of_nat (length t).
Proof.
  revert t. induction n as [|n IH]; intros t Hlen.
  - destruct t; [simpl; lia | simpl in Hlen; lia].
  - destruct t as [|u rest]; [simpl; lia|].
    simpl in Hlen.
    assert (Hrest : 0 <= byteLength rest <= 3 * Z.of_nat (length rest))
      by (apply IH; lia).
    cbn [byteLength]. rewrite length_cons, Nat2Z.inj_succ.
    destruct (u <? 128); [lia|]. destruct (u <? 2048); [lia|].
    destruct (isHighSurrogate u); [|lia].
    destruct rest as [|v rest']; [simpl; lia|].
    destruct (isLowSurrogate v); [|lia].
    assert (0 <= byteLength rest' <= 3 * Z.of_nat (length rest')).
    { apply IH. simpl in Hlen. lia. }
    rewrite length_cons, Nat2Z.inj_succ. lia.
Qed.

(** Between one and three bytes per code unit. *)
Lemma byteLength_bound (t : Text) :
  0 <= byteLength t <= 3 * Z.of_nat (length t).
Proof. by apply (byteLength_bound_aux (length t)). Qed.

End BodySize.

(** X21.  The size the executor really bounds: whatever the response, a
    text body in the result is at most 3 * (MAX_BODY_SIZE + 15) = 30765
    bytes of UTF-8 (at most MAX_BODY_SIZE bytes when [truncated] is
    false); and [truncated] is true exactly when [bytesReturned] exceeds
    MAX_BODY_SIZE. *)
Theorem http_body_bound (JSON_parse : Text -> option Json) (o : FetchOutcome) :
  (forall b, http_body (executeHttpGetJson JSON_parse o) = BodyText b ->
     byteLength b <= maxTextBodyBytes
     /\ (truncated (executeHttpGetJson JSON_parse o) = false ->
         byteLength b <= MAX_BODY_SIZE))
  /\ (truncated (executeHttpGetJson JSON_parse o) = true
      <-> MAX_BODY_SIZE < bytesReturned (executeHttpGetJson JSON_parse o)).
Proof.
  assert (Herr : forall m,
    (forall b, http_body (errorResult m) = BodyText b ->
       byteLength b <= maxTextBodyBytes
       /\ (truncated (errorResult m) = false -> byteLength b <= MAX_BODY_SIZE))
    /\ (truncated (errorResult m) = true
        <-> MAX_BODY_SIZE < bytesReturned (errorResult m))).
  { intros m. split; [discriminate|]. simpl. unfold MAX_BODY_SIZE. split; [done|lia]. }
  destruct o as [m|m|st ct [m|text]]; try apply Herr.
  cbn [executeHttpGetJson]. cbv zeta.
  destruct (MAX_BODY_SIZE <? byteLength text) eqn:E; cbn [http_body truncated bytesReturned].
  - apply Z.ltb_lt in E. split; [|done].
    intros b Hb. split; [|discriminate].
    assert (b = take (Z.to_nat MAX_BODY_SIZE) text ++ truncatedMarker) as ->.
    { unfold parseOr in Hb. destruct (includes _ _); [|congruence].
      destruct (JSON_parse _); [discriminate | congruence]. }
    pose proof (byteLength_bound
                  (take (Z.to_nat MAX_BODY_SIZE) text ++ truncatedMarker)) as Hb'.
    rewrite length_app, length_take in Hb'.
    change (length truncatedMarker) with 15%nat in Hb'.
    unfold maxTextBodyBytes, MAX_BODY_SIZE in *. lia.
  - apply Z.ltb_ge in E. split; [|split; [discriminate | lia]].
    intros b Hb.
    assert (b = text) as ->.
    { unfold parseOr in Hb. destruct (includes _ _); [|congruence].
      destruct (JSON_parse _); [discriminate | congruence]. }
    unfold maxTextBodyBytes, MAX_BODY_SIZE in *. split; [lia | intros _; lia].
Qed.

Lemma http_body_bound_witness :
  byteLength (euroText ++ truncatedMarker) <= maxTextBodyBytes.
Proof.
  apply (http_body_bound neverParses
           (Responded 200 (Some "text/plain") (BodyArrived euroText))).
  vm_compute. reflexivity.
Defined.

(* ===================================================================== *)
(** ** Scenarios across operations                                        *)
(* ===================================================================== *)

Section Scenarios.

Implicit Types (db : Db) (r : CommandRow).

(** A report on a command that is not RUNNING for the reporting agent. *)
Lemma postResult_refused a c st res e now hbNow db i r :
  uniqueIds db -> a <> "" -> c <> "" ->
  commands db !! i = Some r -> row_id r = c -> runningFor a r = false ->
  postResult (report a c st res e) now hbNow db
  = ((if isTerminal (row_status r) then (200, alreadyCompleted)
      else (409, notOwnerOrNotRunning)), db).
Proof.
  intros Hnd Ha Hc Hi Hid Hnot.
  assert (Hin : r ∈ commands db) by (apply list_elem_of_lookup; eauto).
  assert (Hfalse : (completeCommand c a st res e now hbNow db).1 = false).
  { destruct (completeCommand c a st res e now hbNow db).1 eqn:E; [|done].
    apply completeCommand_true_row in E as (j & x & Hj & Hxid & Hxst & Hxag).
    assert (Hxin : x ∈ commands db) by (apply list_elem_of_lookup; eauto).
    assert (x = r) as -> by (apply (uniqueIds_same_row db); congruence).
    assert (runningFor a r = true) by (by apply runningFor_spec).
    congruence. }
  pose proof (proj2 (completeCommand_unchanged c a st res e now hbNow db) Hfalse)
    as Hdb.
  unfold postResult, report. cbn [req_agentId req_commandId req_status
                                  req_result req_error].
  rewrite (truthy_Some a Ha), (truthy_Some c Hc).
  rewrite (truthy_Some (statusText st)) by (by destruct st).
  cbn [negb orb]. rewrite parseTerminalStatus_text.
  cbv zeta. rewrite Hfalse, Hdb. cbn [negb].
  unfold getCommand. rewrite <- Hid, (find_by_id db r Hnd Hin). simpl.
  by destruct (isTerminal (row_status r)).
Qed.

Lemma uniqueIds_recover now db : uniqueIds db -> uniqueIds (recoverFromCrash now db).
Proof. apply (uniqueIds_runOp (OpRecoverFromCrash now)). Qed.

End Scenarios.

(** X22.  Stale reclamation after a fetch: an idle agent is handed a
    command, then sends no heartbeat; a reclamation pass whose cutoff (now
    minus timeout) is later than the time of the fetch puts the command
    back to PENDING, without owner and start time, otherwise as it was
    before the fetch except for [updated_at], and clears the current
    command of the agent's heartbeat row. *)
Theorem stale_reclaim_after_fetch (a : string) (now hbNow t dateNow now' : Z)
    (db : Db) (i : nat) (p : CommandRow) (cmd : Command) :
  uniqueIds db -> nonEmptyIds db -> idle a db ->
  (fetchNextCommand a now hbNow db).1 = Some cmd ->
  commands db !! i = Some p -> row_id p = id cmd ->
  hbNow < dateNow - t ->
  row_status p = PENDING
  /\ commands (checkStaleCommands t dateNow now'
                 (fetchNextCommand a now hbNow db).2).2 !! i
     = Some (resetRow now' p)
  /\ agent_heartbeats (checkStaleCommands t dateNow now'
                         (fetchNextCommand a now hbNow db).2).2 !! a
     = Some {| last_heartbeat := hbNow; current_command_id := None |}.
Proof.
  intros Hnd Hne Hidle Hfetch Hi Hid Hlt.
  assert (Hin : p ∈ commands db) by (apply list_elem_of_lookup; eauto).
  apply idle_iff_find in Hidle.
  revert Hfetch. rewrite checkStaleCommands_commands, checkStaleCommands_heartbeats.
  unfold fetchNextCommand. rewrite Hidle.
  destruct (orderByCreatedAtLimit1 _) as [q|] eqn:Hsel; [|discriminate].
  cbn [fst snd]. intros [= <-]. cbn [id] in Hid.
  apply selected_pending in Hsel as [Hq Hst].
  assert (q = p) as -> by (by apply (uniqueIds_same_row db)).
  split; [done|].
  cbn [updateHeartbeat commands agent_heartbeats].
  rewrite (orNull_Some (row_id p) (Hne p Hin)), lookup_insert_eq.
  assert (Hcut : isStale (dateNow - t)
                   {| last_heartbeat := hbNow;
                      current_command_id := Some (row_id p) |} = true).
  { unfold isStale. cbn [last_heartbeat current_command_id].
    by rewrite bool_decide_eq_true_2. }
  split.
  - rewrite !updateWhere_lookup, Hi. cbn [fmap option_fmap option_map].
    rewrite (proj2 (hasId_spec (row_id p) p) eq_refl).
    unfold isStaleOwner. cbn [isRunning assignRow row_status agent_id].
    rewrite lookup_insert_eq, Hcut. reflexivity.
  - cbn [fmap option_fmap option_map]. by rewrite Hcut.
Qed.

Lemma stale_reclaim_after_fetch_witness :
  commands (checkStaleCommands 60 200 201
              (fetchNextCommand "b" 20 21 exampleDb).2).2 !! 2%nat
  = Some (resetRow 201 (mkRow "c3" DELAY delay100 PENDING None None 3 3 None None)).
Proof.
  apply (stale_reclaim_after_fetch "b" 20 21 60 200 201 exampleDb 2
           (mkRow "c3" DELAY delay100 PENDING None None 3 3 None None)
           (rowToCommand (assignRow "b" 20
              (mkRow "c3" DELAY delay100 PENDING None None 3 3 None None)))).
  - exact exampleDb_uniqueIds.
  - exact exampleDb_nonEmptyIds.
  - apply idle_iff_find. reflexivity.
  - reflexivity.
  - reflexivity.
  - reflexivity.
  - lia.
Defined.

(** X23.  A report that crosses a server restart: after
    [recoverFromCrash] a result report for a command that was RUNNING is
    answered 409 and changes nothing, whoever sends it; the command stays
    PENDING for the next fetch. *)
Theorem report_after_restart (a c : string) (st : TerminalStatus) (res : Json)
    (e : option string) (now now2 hbNow2 : Z) (db : Db) (i : nat)
    (r : CommandRow) :
  uniqueIds db -> a <> "" -> c <> "" ->
  commands db !! i = Some r -> row_id r = c -> row_status r = RUNNING ->
  postResult (report a c st res e) now2 hbNow2 (recoverFromCrash now db)
  = ((409, notOwnerOrNotRunning), recoverFromCrash now db)
  /\ commands (recoverFromCrash now db) !! i = Some (resetRow now r).
Proof.
  intros Hnd Ha Hc Hi Hid Hst.
  assert (Hi' : commands (recoverFromCrash now db) !! i = Some (resetRow now r)).
  { rewrite recoverFromCrash_commands, updateWhere_lookup, Hi. simpl.
    unfold isRunning. by rewrite bool_decide_eq_true_2. }
  split; [|done].
  by rewrite (postResult_refused a c st res e now2 hbNow2
                (recoverFromCrash now db) i (resetRow now r)
                (uniqueIds_recover now db Hnd) Ha Hc Hi' Hid eq_refl).
Qed.

Lemma report_after_restart_witness :
  postResult (report "a" "c2" T_COMPLETED JNull None) 60 61
    (recoverFromCrash 50 exampleDb)
  = ((409, notOwnerOrNotRunning), recoverFromCrash 50 exampleDb)
  /\ commands (recoverFromCrash 50 exampleDb) !! 1%nat
     = Some (resetRow 50 (mkRow "c2" DELAY delay100 RUNNING None (Some "a") 2 10
                            (Some 10) None)).
Proof.
  apply (report_after_restart "a" "c2" T_COMPLETED JNull None 50 60 61 exampleDb 1);
    [exact exampleDb_uniqueIds | discriminate | discriminate | reflexivity..].
Defined.
